(** * Tile scheduler and texture parameters of the terrain renderer

    A shallow embedding of [nucleus/tile_scheduler/Scheduler.cpp] and of
    [gl_engine::Texture::setParams] from [gl_engine/Texture.cpp], together
    with the properties the design document states about them.

    Conventions.
    - [unsigned] values are [Z] in the range [0, 2^32); conversions to
      [int] are written out ([to_int]).
    - A C++ [assert] is a [guard] in the [option] monad: [None] is the
      aborted call.
    - Qt signals are values of [Signal]; a slot returns the new state and
      what it emitted.
    - [std::shared_ptr<X>] that may be null is [option X]. *)

From Stdlib Require Import ZArith Bool List Lia.
From Stdlib Require Import Floats.SpecFloat.
From stdpp Require Import base decidable option list countable gmap.

Local Open Scope Z_scope.

(** ** Machine integers *)

Definition UINT_MOD : Z := 2 ^ 32.
Definition INT_MAX : Z := 2 ^ 31 - 1.

(** [int(x)] for an [unsigned] x: the value modulo 2^32, read as two's
    complement. *)
Definition to_int (x : Z) : Z :=
  if x <? 2 ^ 31 then x else x - UINT_MOD.

(** ** gl_engine::Texture *)

Module Texture.

(** The enumerations are declared in Texture.h; the enumerators are the
    ones Texture.cpp names, and [Linear] for plain GL_LINEAR filtering. *)
Inductive Target := _2d | _2dArray.
Inductive Format := RGBA8 | CompressedRGBA8 | RG8 | R16UI | Invalid.
Inductive Filter := Nearest | Linear | MipMapLinear.

#[global] Instance Format_eq_dec : EqDecision Format.
Proof. solve_decision. Defined.
#[global] Instance Filter_eq_dec : EqDecision Filter.
Proof. solve_decision. Defined.

Record Texture := {
  m_target : Target;
  m_format : Format;
  m_id : Z;
  m_min_filter : Filter;
  m_mag_filter : Filter
}.

(** The three assertions of [setParams], then the two stores.  The
    calls into the GL context that follow do not touch the object. *)
Definition setParams (t : Texture) (min_filter mag_filter : Filter)
  : option Texture :=
  guard (mag_filter ≠ MipMapLinear);;
  guard (m_format t ≠ CompressedRGBA8 ∨ min_filter ≠ MipMapLinear);;
  guard (m_format t ≠ R16UI ∨ (min_filter = Nearest ∧ mag_filter = Nearest));;
  Some {| m_target := m_target t;
          m_format := m_format t;
          m_id := m_id t;
          m_min_filter := min_filter;
          m_mag_filter := mag_filter |}.

(** The compatibility conditions as the design document words them. *)
Definition r16ui_nearest (fmt : Format) (min_filter mag_filter : Filter) : Prop :=
  fmt = R16UI → min_filter = Nearest ∧ mag_filter = Nearest.

Definition mip_uncompressed (fmt : Format) (min_filter mag_filter : Filter) : Prop :=
  (min_filter = MipMapLinear ∨ mag_filter = MipMapLinear) → fmt ≠ CompressedRGBA8.

End Texture.

(** ** Tile identifiers *)

Module tile.

(** [tile::Id { zoom_level, coords }]; both coordinates and the zoom
    level are [unsigned]. *)
Record Id := { zoom_level : Z; coords : Z * Z }.

#[global] Instance Id_eq_dec : EqDecision Id.
Proof. solve_decision. Defined.

#[global] Instance Id_countable : Countable Id.
Proof.
  refine (inj_countable' (λ v, (zoom_level v, coords v))
                         (λ p, {| zoom_level := p.1; coords := p.2 |}) _).
  intros [z c]; reflexivity.
Defined.

Definition root : Id := {| zoom_level := 0; coords := (0, 0) |}.

(** Modelled from the spec: [tile::Id::children] is defined in the
    quad-tree library (sherpa), not in the renderer.  The four children
    sit one zoom level down at (2x,2y), (2x+1,2y), (2x,2y+1), (2x+1,2y+1),
    in that order; the arithmetic is [unsigned]. *)
Definition children (v : Id) : list Id :=
  let z := (zoom_level v + 1) mod UINT_MOD in
  let x := (coords v).1 in
  let y := (coords v).2 in
  [ {| zoom_level := z; coords := ((2 * x) mod UINT_MOD, (2 * y) mod UINT_MOD) |};
    {| zoom_level := z; coords := ((2 * x + 1) mod UINT_MOD, (2 * y) mod UINT_MOD) |};
    {| zoom_level := z; coords := ((2 * x) mod UINT_MOD, (2 * y + 1) mod UINT_MOD) |};
    {| zoom_level := z; coords := ((2 * x + 1) mod UINT_MOD, (2 * y + 1) mod UINT_MOD) |} ].

End tile.

(** ** Quad-tree traversal *)

Module quad_tree.

(** Modelled from the spec: [quad_tree::onTheFlyTraverse] is defined in
    the quad-tree library (sherpa/quad_tree.h), not in the renderer.
    Top-down: a node the predicate refines is an
    inner node, its children come from the expansion callback (which
    may record the node in its own state [S]) and are visited in order;
    any other node is a leaf.  The recursion of the original is bounded
    only by the predicate, so the model counts depth with [fuel] and
    answers [None] when it runs out. *)
Fixpoint onTheFlyTraverse {S : Type} (fuel : nat) (root : tile.Id)
    (predicate : tile.Id → bool)
    (generate_children : tile.Id → S → list tile.Id * S)
    (st : S) : option (list tile.Id * S) :=
  match fuel with
  | O => None
  | Datatypes.S fuel' =>
      if predicate root then
        let '(children, st1) := generate_children root st in
        fold_left
          (λ acc child,
             '(leaves, st2) ← acc;
             '(sub, st3) ← onTheFlyTraverse fuel' child predicate generate_children st2;
             Some (leaves ++ sub, st3))
          children (Some ([], st1))
      else Some ([root], st)
  end.

End quad_tree.

(** ** Bounded cache *)

(** The [NamedTile] concept: a cached value carries its tile id. *)
Class NamedTile (T : Type) := tile_id : T → tile.Id.

Module Cache.

(** Modelled from the spec: the class template [Cache<T>] of
    nucleus/tile_scheduler/Cache.h, data members and member functions.
    Following the design document (data model and bounded-cache
    contract), a cache is an insertion-ordered mapping from tile id to [T]
    with a [useful] flag per entry and a capacity; the list is kept
    oldest entry first. *)
Record CacheObject (T : Type) := { data : T; useful : bool }.
Arguments data {T}.
Arguments useful {T}.

Record t (T : Type) := { m_data : list (CacheObject T); m_capacity : Z }.
Arguments m_data {T}.
Arguments m_capacity {T}.

Section Operations.
Context {T : Type} `{NamedTile T}.

(** The ids of the cached values, oldest first. *)
Definition ids (c : t T) : list tile.Id :=
  map (λ o, tile_id (data o)) (m_data c).

(** Modelled from the spec: [Cache<T>::contains]. *)
Definition contains (id : tile.Id) (c : t T) : bool :=
  bool_decide (id ∈ ids c).

(** Modelled from the spec: [Cache<T>::n_cached_objects]. *)
Definition n_cached_objects (c : t T) : Z :=
  Z.of_nat (length (m_data c)).

(** Modelled from the spec: [Cache<T>::set_capacity] only records the
    new target; the next [purge] enforces it. *)
Definition set_capacity (n : Z) (c : t T) : t T :=
  {| m_data := m_data c; m_capacity := n |}.

(** Modelled from the spec: [Cache<T>::insert], one value.  Add or
    replace: an entry with the same id is dropped, the new one is the
    most recent insertion and starts out useful. *)
Definition insert_one (c : t T) (x : T) : t T :=
  {| m_data :=
       filter (λ o, tile_id (data o) ≠ tile_id x) (m_data c)
         ++ [ {| data := x; useful := true |} ];
     m_capacity := m_capacity c |}.

(** Modelled from the spec: [Cache<T>::insert] of a vector, in order. *)
Definition insert (xs : list T) (c : t T) : t T :=
  fold_left insert_one xs c.

(** Modelled from the spec: [Cache<T>::visit]; every entry gets
    [useful ← f(entry)], oldest entry first.  The functor of the caller
    may write to captured variables; [St] is their state. *)
Fixpoint visit_objects {St : Type} (f : T → St → bool * St)
    (os : list (CacheObject T)) (st : St) : list (CacheObject T) * St :=
  match os with
  | [] => ([], st)
  | o :: os' =>
      let '(u, st1) := f (data o) st in
      let '(os'', st2) := visit_objects f os' st1 in
      ({| data := data o; useful := u |} :: os'', st2)
  end.

Definition visit {St : Type} (f : T → St → bool * St) (c : t T) (st : St)
  : t T * St :=
  let '(os, st') := visit_objects f (m_data c) st in
  ({| m_data := os; m_capacity := m_capacity c |}, st').

(** A functor without captured state. *)
Definition visit_pure (f : T → bool) (c : t T) : t T :=
  (visit (λ x (_ : unit), (f x, tt)) c tt).1.

(** Walk the entries oldest first and take out the first [k] that
    satisfy [p]: the pair is (kept, removed). *)
Fixpoint evict_where (p : CacheObject T → bool) (k : nat)
    (os : list (CacheObject T))
  : list (CacheObject T) * list (CacheObject T) :=
  match os with
  | [] => ([], [])
  | o :: os' =>
      match k with
      | O => (os, [])
      | Datatypes.S k' =>
          if p o then
            let '(kept, removed) := evict_where p k' os' in
            (kept, o :: removed)
          else
            let '(kept, removed) := evict_where p k os' in
            (o :: kept, removed)
      end
  end.

(** Modelled from the spec: [Cache<T>::purge]; bring the size down to
    the capacity, taking entries that are not useful first and, among
    equals, the least recently inserted first; the removed values are
    returned. *)
Definition purge (c : t T) : t T * list T :=
  let excess := (length (m_data c) - Z.to_nat (m_capacity c))%nat in
  let '(kept1, removed1) := evict_where (λ o, negb (useful o)) excess (m_data c) in
  let '(kept2, removed2) :=
    evict_where useful (excess - length removed1)%nat kept1 in
  ({| m_data := kept2; m_capacity := m_capacity c |},
   map data (removed1 ++ removed2)).

End Operations.

End Cache.

(** ** Payloads and tile types *)

Definition QByteArray : Type := list Byte.byte.

(** What the scheduler calls but does not define: the camera, the
    bounding-box decorator, the refinement functor of
    [tile_scheduler::utils] and the image conversions of
    [nucleus::utils::tile_conversion].  All of them are pure. *)
Class Externals := {
  Camera : Type;
  AabbDecoratorPtr : Type;
  Aabb : Type;
  QImage : Type;
  Raster_uint16 : Type;
  aabb : AabbDecoratorPtr → tile.Id → Aabb;
  refineFunctor : Camera → AabbDecoratorPtr → spec_float → Z → tile.Id → bool;
  toQImage : QByteArray → QImage;
  qImage2uint16Raster : QImage → Raster_uint16
}.

(** The tile types are declared in tile_types.h; the members below are
    the ones Scheduler.cpp reads and writes. *)

(** One child of a quad as the fetcher delivers it. *)
Module LayeredTile.
Record t := {
  id : tile.Id;
  ortho : option QByteArray;
  height : option QByteArray
}.
End LayeredTile.

Module TileQuad.
(** [tiles] is a [std::array] of four. *)
Record t := {
  id : tile.Id;
  n_tiles : Z;
  tiles : list LayeredTile.t
}.
End TileQuad.

Module GpuTile.
(** Both images are freshly allocated by [make_shared], hence present. *)
Record t `{Externals} := {
  id : tile.Id;
  bounds : Aabb;
  ortho : QImage;
  height : Raster_uint16
}.
End GpuTile.

Module GpuTileQuad.
(** [tiles] is a [std::array] of four; a slot the promotion loop has not
    written holds a default-constructed tile, which is [None] here. *)
Record t `{Externals} := {
  id : tile.Id;
  tiles : list (option GpuTile.t)
}.
End GpuTileQuad.

Module GpuCacheInfo.
Record t := { id : tile.Id }.
End GpuCacheInfo.

#[global] Instance TileQuad_named : NamedTile TileQuad.t := TileQuad.id.
#[global] Instance GpuCacheInfo_named : NamedTile GpuCacheInfo.t := GpuCacheInfo.id.

(** ** Timers *)

Module QTimer.
Record t := { isActive : bool; interval : Z; isSingleShot : bool }.

(** [start(msec)] sets the interval and (re)starts the timer. *)
Definition start (msec : Z) (tm : t) : t :=
  {| isActive := true; interval := msec; isSingleShot := isSingleShot tm |}.

(** A single-shot timer is inactive once it has fired. *)
Definition fire (tm : t) : t :=
  {| isActive := if isSingleShot tm then false else isActive tm;
     interval := interval tm;
     isSingleShot := isSingleShot tm |}.
End QTimer.

(** ** Single-precision arithmetic of the purge threshold *)

(** IEEE binary32. *)
Definition prec32 : Z := 24.
Definition emax32 : Z := 128.

(** [float(x)] for an [unsigned] x. *)
Definition float_of_unsigned (x : Z) : spec_float :=
  binary_normalize prec32 emax32 x 0 false.

(** The literal [1.1f], 9227469 * 2^-23. *)
Definition float_1_1 : spec_float := S754_finite false 9227469 (-23).

(** [unsigned(f)]: truncation towards zero; the conversion is undefined
    for a value that does not fit, which is [None]. *)
Definition unsigned_of_float (f : spec_float) : option Z :=
  match f with
  | S754_zero _ => Some 0
  | S754_finite sign m e =>
      let v := if 0 <=? e then Z.pos m * 2 ^ e else Z.pos m / 2 ^ (- e) in
      if v =? 0 then Some 0
      else if sign then None
      else if v <? UINT_MOD then Some v else None
  | _ => None
  end.

(** ** The scheduler *)

Section Scheduler.
Context `{Ext : Externals}.

Record Scheduler := {
  m_current_camera : Camera;
  m_aabb_decorator : AabbDecoratorPtr;
  m_permissible_screen_space_error : spec_float;
  m_ortho_tile_size : Z;
  m_height_tile_size : Z;
  m_update_timeout : Z;
  m_purge_timeout : Z;
  m_enabled : bool;
  m_ram_quad_limit : Z;
  m_gpu_quad_limit : Z;
  m_ram_cache : Cache.t TileQuad.t;
  m_gpu_cached : Cache.t GpuCacheInfo.t;
  m_default_ortho_tile : QByteArray;
  m_default_height_tile : QByteArray;
  m_update_timer : QTimer.t;
  m_purge_timer : QTimer.t
}.

Inductive Signal :=
| quads_requested (ids : list tile.Id)
| gpu_quads_updated (added : list GpuTileQuad.t) (removed : list tile.Id).

(** Functional update of one member. *)
Definition with_current_camera (v : Camera) (s : Scheduler) : Scheduler :=
  {| m_current_camera := v;
     m_aabb_decorator := m_aabb_decorator s;
     m_permissible_screen_space_error := m_permissible_screen_space_error s;
     m_ortho_tile_size := m_ortho_tile_size s;
     m_height_tile_size := m_height_tile_size s;
     m_update_timeout := m_update_timeout s;
     m_purge_timeout := m_purge_timeout s;
     m_enabled := m_enabled s;
     m_ram_quad_limit := m_ram_quad_limit s;
     m_gpu_quad_limit := m_gpu_quad_limit s;
     m_ram_cache := m_ram_cache s;
     m_gpu_cached := m_gpu_cached s;
     m_default_ortho_tile := m_default_ortho_tile s;
     m_default_height_tile := m_default_height_tile s;
     m_update_timer := m_update_timer s;
     m_purge_timer := m_purge_timer s |}.

Definition with_aabb_decorator (v : AabbDecoratorPtr) (s : Scheduler) : Scheduler :=
  {| m_current_camera := m_current_camera s;
     m_aabb_decorator := v;
     m_permissible_screen_space_error := m_permissible_screen_space_error s;
     m_ortho_tile_size := m_ortho_tile_size s;
     m_height_tile_size := m_height_tile_size s;
     m_update_timeout := m_update_timeout s;
     m_purge_timeout := m_purge_timeout s;
     m_enabled := m_enabled s;
     m_ram_quad_limit := m_ram_quad_limit s;
     m_gpu_quad_limit := m_gpu_quad_limit s;
     m_ram_cache := m_ram_cache s;
     m_gpu_cached := m_gpu_cached s;
     m_default_ortho_tile := m_default_ortho_tile s;
     m_default_height_tile := m_default_height_tile s;
     m_update_timer := m_update_timer s;
     m_purge_timer := m_purge_timer s |}.

Definition with_permissible_screen_space_error (v : spec_float) (s : Scheduler) : Scheduler :=
  {| m_current_camera := m_current_camera s;
     m_aabb_decorator := m_aabb_decorator s;
     m_permissible_screen_space_error := v;
     m_ortho_tile_size := m_ortho_tile_size s;
     m_height_tile_size := m_height_tile_size s;
     m_update_timeout := m_update_timeout s;
     m_purge_timeout := m_purge_timeout s;
     m_enabled := m_enabled s;
     m_ram_quad_limit := m_ram_quad_limit s;
     m_gpu_quad_limit := m_gpu_quad_limit s;
     m_ram_cache := m_ram_cache s;
     m_gpu_cached := m_gpu_cached s;
     m_default_ortho_tile := m_default_ortho_tile s;
     m_default_height_tile := m_default_height_tile s;
     m_update_timer := m_update_timer s;
     m_purge_timer := m_purge_timer s |}.

Definition with_update_timeout (v : Z) (s : Scheduler) : Scheduler :=
  {| m_current_camera := m_current_camera s;
     m_aabb_decorator := m_aabb_decorator s;
     m_permissible_screen_space_error := m_permissible_screen_space_error s;
     m_ortho_tile_size := m_ortho_tile_size s;
     m_height_tile_size := m_height_tile_size s;
     m_update_timeout := v;
     m_purge_timeout := m_purge_timeout s;
     m_enabled := m_enabled s;
     m_ram_quad_limit := m_ram_quad_limit s;
     m_gpu_quad_limit := m_gpu_quad_limit s;
     m_ram_cache := m_ram_cache s;
     m_gpu_cached := m_gpu_cached s;
     m_default_ortho_tile := m_default_ortho_tile s;
     m_default_height_tile := m_default_height_tile s;
     m_update_timer := m_update_timer s;
     m_purge_timer := m_purge_timer s |}.

Definition with_purge_timeout (v : Z) (s : Scheduler) : Scheduler :=
  {| m_current_camera := m_current_camera s;
     m_aabb_decorator := m_aabb_decorator s;
     m_permissible_screen_space_error := m_permissible_screen_space_error s;
     m_ortho_tile_size := m_ortho_tile_size s;
     m_height_tile_size := m_height_tile_size s;
     m_update_timeout := m_update_timeout s;
     m_purge_timeout := v;
     m_enabled := m_enabled s;
     m_ram_quad_limit := m_ram_quad_limit s;
     m_gpu_quad_limit := m_gpu_quad_limit s;
     m_ram_cache := m_ram_cache s;
     m_gpu_cached := m_gpu_cached s;
     m_default_ortho_tile := m_default_ortho_tile s;
     m_default_height_tile := m_default_height_tile s;
     m_update_timer := m_update_timer s;
     m_purge_timer := m_purge_timer s |}.

Definition with_enabled (v : bool) (s : Scheduler) : Scheduler :=
  {| m_current_camera := m_current_camera s;
     m_aabb_decorator := m_aabb_decorator s;
     m_permissible_screen_space_error := m_permissible_screen_space_error s;
     m_ortho_tile_size := m_ortho_tile_size s;
     m_height_tile_size := m_height_tile_size s;
     m_update_timeout := m_update_timeout s;
     m_purge_timeout := m_purge_timeout s;
     m_enabled := v;
     m_ram_quad_limit := m_ram_quad_limit s;
     m_gpu_quad_limit := m_gpu_quad_limit s;
     m_ram_cache := m_ram_cache s;
     m_gpu_cached := m_gpu_cached s;
     m_default_ortho_tile := m_default_ortho_tile s;
     m_default_height_tile := m_default_height_tile s;
     m_update_timer := m_update_timer s;
     m_purge_timer := m_purge_timer s |}.

Definition with_ram_quad_limit (v : Z) (s : Scheduler) : Scheduler :=
  {| m_current_camera := m_current_camera s;
     m_aabb_decorator := m_aabb_decorator s;
     m_permissible_screen_space_error := m_permissible_screen_space_error s;
     m_ortho_tile_size := m_ortho_tile_size s;
     m_height_tile_size := m_height_tile_size s;
     m_update_timeout := m_update_timeout s;
     m_purge_timeout := m_purge_timeout s;
     m_enabled := m_enabled s;
     m_ram_quad_limit := v;
     m_gpu_quad_limit := m_gpu_quad_limit s;
     m_ram_cache := m_ram_cache s;
     m_gpu_cached := m_gpu_cached s;
     m_default_ortho_tile := m_default_ortho_tile s;
     m_default_height_tile := m_default_height_tile s;
     m_update_timer := m_update_timer s;
     m_purge_timer := m_purge_timer s |}.

Definition with_gpu_quad_limit (v : Z) (s : Scheduler) : Scheduler :=
  {| m_current_camera := m_current_camera s;
     m_aabb_decorator := m_aabb_decorator s;
     m_permissible_screen_space_error := m_permissible_screen_space_error s;
     m_ortho_tile_size := m_ortho_tile_size s;
     m_height_tile_size := m_height_tile_size s;
     m_update_timeout := m_update_timeout s;
     m_purge_timeout := m_purge_timeout s;
     m_enabled := m_enabled s;
     m_ram_quad_limit := m_ram_quad_limit s;
     m_gpu_quad_limit := v;
     m_ram_cache := m_ram_cache s;
     m_gpu_cached := m_gpu_cached s;
     m_default_ortho_tile := m_default_ortho_tile s;
     m_default_height_tile := m_default_height_tile s;
     m_update_timer := m_update_timer s;
     m_purge_timer := m_purge_timer s |}.

Definition with_ram_cache (v : Cache.t TileQuad.t) (s : Scheduler) : Scheduler :=
  {| m_current_camera := m_current_camera s;
     m_aabb_decorator := m_aabb_decorator s;
     m_permissible_screen_space_error := m_permissible_screen_space_error s;
     m_ortho_tile_size := m_ortho_tile_size s;
     m_height_tile_size := m_height_tile_size s;
     m_update_timeout := m_update_timeout s;
     m_purge_timeout := m_purge_timeout s;
     m_enabled := m_enabled s;
     m_ram_quad_limit := m_ram_quad_limit s;
     m_gpu_quad_limit := m_gpu_quad_limit s;
     m_ram_cache := v;
     m_gpu_cached := m_gpu_cached s;
     m_default_ortho_tile := m_default_ortho_tile s;
     m_default_height_tile := m_default_height_tile s;
     m_update_timer := m_update_timer s;
     m_purge_timer := m_purge_timer s |}.

Definition with_gpu_cached (v : Cache.t GpuCacheInfo.t) (s : Scheduler) : Scheduler :=
  {| m_current_camera := m_current_camera s;
     m_aabb_decorator := m_aabb_decorator s;
     m_permissible_screen_space_error := m_permissible_screen_space_error s;
     m_ortho_tile_size := m_ortho_tile_size s;
     m_height_tile_size := m_height_tile_size s;
     m_update_timeout := m_update_timeout s;
     m_purge_timeout := m_purge_timeout s;
     m_enabled := m_enabled s;
     m_ram_quad_limit := m_ram_quad_limit s;
     m_gpu_quad_limit := m_gpu_quad_limit s;
     m_ram_cache := m_ram_cache s;
     m_gpu_cached := v;
     m_default_ortho_tile := m_default_ortho_tile s;
     m_default_height_tile := m_default_height_tile s;
     m_update_timer := m_update_timer s;
     m_purge_timer := m_purge_timer s |}.

Definition with_update_timer (v : QTimer.t) (s : Scheduler) : Scheduler :=
  {| m_current_camera := m_current_camera s;
     m_aabb_decorator := m_aabb_decorator s;
     m_permissible_screen_space_error := m_permissible_screen_space_error s;
     m_ortho_tile_size := m_ortho_tile_size s;
     m_height_tile_size := m_height_tile_size s;
     m_update_timeout := m_update_timeout s;
     m_purge_timeout := m_purge_timeout s;
     m_enabled := m_enabled s;
     m_ram_quad_limit := m_ram_quad_limit s;
     m_gpu_quad_limit := m_gpu_quad_limit s;
     m_ram_cache := m_ram_cache s;
     m_gpu_cached := m_gpu_cached s;
     m_default_ortho_tile := m_default_ortho_tile s;
     m_default_height_tile := m_default_height_tile s;
     m_update_timer := v;
     m_purge_timer := m_purge_timer s |}.

Definition with_purge_timer (v : QTimer.t) (s : Scheduler) : Scheduler :=
  {| m_current_camera := m_current_camera s;
     m_aabb_decorator := m_aabb_decorator s;
     m_permissible_screen_space_error := m_permissible_screen_space_error s;
     m_ortho_tile_size := m_ortho_tile_size s;
     m_height_tile_size := m_height_tile_size s;
     m_update_timeout := m_update_timeout s;
     m_purge_timeout := m_purge_timeout s;
     m_enabled := m_enabled s;
     m_ram_quad_limit := m_ram_quad_limit s;
     m_gpu_quad_limit := m_gpu_quad_limit s;
     m_ram_cache := m_ram_cache s;
     m_gpu_cached := m_gpu_cached s;
     m_default_ortho_tile := m_default_ortho_tile s;
     m_default_height_tile := m_default_height_tile s;
     m_update_timer := m_update_timer s;
     m_purge_timer := v |}.

(** The functor every pass builds from the current members. *)
Definition should_refine (s : Scheduler) : tile.Id → bool :=
  refineFunctor (m_current_camera s) (m_aabb_decorator s)
                (m_permissible_screen_space_error s) (m_ortho_tile_size s).

(** *** Arming the timers *)

Definition schedule_update (s : Scheduler) : option Scheduler :=
  guard (m_update_timeout s < INT_MAX);;
  Some (if m_enabled s && negb (QTimer.isActive (m_update_timer s))
        then with_update_timer
               (QTimer.start (to_int (m_update_timeout s)) (m_update_timer s)) s
        else s).

Definition schedule_purge (s : Scheduler) : option Scheduler :=
  guard (m_purge_timeout s < INT_MAX);;
  Some (if m_enabled s && negb (QTimer.isActive (m_purge_timer s))
        then with_purge_timer
               (QTimer.start (to_int (m_purge_timeout s)) (m_purge_timer s)) s
        else s).

Definition update_camera (camera : Camera) (s : Scheduler) : option Scheduler :=
  schedule_update (with_current_camera camera s).

Definition receiver_quads (new_quads : list TileQuad.t) (s : Scheduler)
  : option Scheduler :=
  let s1 := with_ram_cache (Cache.insert new_quads (m_ram_cache s)) s in
  s2 ← schedule_purge s1;
  schedule_update s2.

(** *** GPU promotion *)

(** The body of the loop over the children of a quad. *)
Definition make_gpu_tile (s : Scheduler) (t : LayeredTile.t) : GpuTile.t :=
  let ortho_data :=
    match LayeredTile.ortho t with
    | Some bytes => bytes
    | None => m_default_ortho_tile s
    end in
  let ortho := toQImage ortho_data in
  let height_data :=
    match LayeredTile.height t with
    | Some bytes => bytes
    | None => m_default_height_tile s
    end in
  let heightraster := qImage2uint16Raster (toQImage height_data) in
  {| GpuTile.id := LayeredTile.id t;
     GpuTile.bounds := aabb (m_aabb_decorator s) (LayeredTile.id t);
     GpuTile.ortho := ortho;
     GpuTile.height := heightraster |}.

(** [for (i = 0; i < quad.n_tiles; ++i)]: slot [i] of the new quad is
    written from child [i].  An index past the four elements would read
    outside the array in the original; the model leaves that slot alone. *)
Definition make_gpu_quad (s : Scheduler) (quad : TileQuad.t) : GpuTileQuad.t :=
  {| GpuTileQuad.id := TileQuad.id quad;
     GpuTileQuad.tiles :=
       fold_left
         (λ slots i,
            match TileQuad.tiles quad !! i with
            | Some t => <[ i := Some (make_gpu_tile s t) ]> slots
            | None => slots
            end)
         (seq 0 (Z.to_nat (TileQuad.n_tiles quad)))
         (replicate 4 None) |}.

(** The functor handed to [m_ram_cache.visit]; its state is the
    captured vector [new_gpu_quads]. *)
Definition promote (s : Scheduler) (quad : TileQuad.t)
    (new_gpu_quads : list GpuTileQuad.t) : bool * list GpuTileQuad.t :=
  if negb (should_refine s (TileQuad.id quad)) then (false, new_gpu_quads)
  else if Cache.contains (TileQuad.id quad) (m_gpu_cached s) then (true, new_gpu_quads)
  else (true, new_gpu_quads ++ [make_gpu_quad s quad]).

(** [std::erase_if] with the predicate that also erases the id it finds
    from [superfluous_ids]. *)
Fixpoint erase_superfluous (new_gpu_quads : list GpuTileQuad.t)
    (superfluous_ids : gset tile.Id) : list GpuTileQuad.t * gset tile.Id :=
  match new_gpu_quads with
  | [] => ([], superfluous_ids)
  | quad :: rest =>
      if decide (GpuTileQuad.id quad ∈ superfluous_ids) then
        erase_superfluous rest (superfluous_ids ∖ {[ GpuTileQuad.id quad ]})
      else
        let '(kept, ids) := erase_superfluous rest superfluous_ids in
        (quad :: kept, ids)
  end.

Definition update_gpu_quads (s : Scheduler) : Scheduler * Signal :=
  let '(ram, new_gpu_quads) := Cache.visit (promote s) (m_ram_cache s) [] in
  let tiles_to_put_in_gpu_cache :=
    map (λ q, {| GpuCacheInfo.id := GpuTileQuad.id q |}) new_gpu_quads in
  let gpu1 := Cache.insert tiles_to_put_in_gpu_cache (m_gpu_cached s) in
  let gpu2 := Cache.visit_pure (λ quad, should_refine s (GpuCacheInfo.id quad)) gpu1 in
  let '(gpu3, superfluous_quads) := Cache.purge gpu2 in
  let superfluous_ids : gset tile.Id :=
    list_to_set (map GpuCacheInfo.id superfluous_quads) in
  let '(added, removed) := erase_superfluous new_gpu_quads superfluous_ids in
  (with_gpu_cached gpu3 (with_ram_cache ram s),
   gpu_quads_updated added (elements removed)).

(** The stages of [update_gpu_quads] by name: the vector after the visit
    of the RAM cache, the shadow cache as [purge] finds it, and the ids
    collected from what [purge] returns. *)
Definition new_gpu_quads (s : Scheduler) : list GpuTileQuad.t :=
  (Cache.visit (promote s) (m_ram_cache s) []).2.

Definition gpu_cached_before_purge (s : Scheduler) : Cache.t GpuCacheInfo.t :=
  Cache.visit_pure (λ quad, should_refine s (GpuCacheInfo.id quad))
    (Cache.insert
       (map (λ q, {| GpuCacheInfo.id := GpuTileQuad.id q |}) (new_gpu_quads s))
       (m_gpu_cached s)).

Definition superfluous_ids (s : Scheduler) : gset tile.Id :=
  list_to_set (map GpuCacheInfo.id (Cache.purge (gpu_cached_before_purge s)).2).

(** The GPU shadow entries that are wanted when [purge] runs. *)
Definition gpu_demand (s : Scheduler) : Z :=
  Z.of_nat (length (filter (λ o, Cache.useful o = true)
                           (Cache.m_data (gpu_cached_before_purge s)))).

(** *** Fetch requests *)

Definition tiles_for_current_camera_position (fuel : nat) (s : Scheduler)
  : option (list tile.Id) :=
  '(all_leaves, all_inner_nodes) ←
    quad_tree.onTheFlyTraverse fuel tile.root (should_refine s)
      (λ v inner, (tile.children v, inner ++ [v])) [];
  Some all_inner_nodes.

Definition send_quad_requests (fuel : nat) (s : Scheduler) : option Signal :=
  currently_active_tiles ← tiles_for_current_camera_position fuel s;
  Some (quads_requested
          (filter (λ id, ¬ Cache.contains id (m_ram_cache s))
                  currently_active_tiles)).

(** The update timer is connected to [send_quad_requests] and then to
    [update_gpu_quads]; both run when it fires. *)
Definition update_pass (fuel : nat) (s : Scheduler)
  : option (Scheduler * list Signal) :=
  let s0 := with_update_timer (QTimer.fire (m_update_timer s)) s in
  requested ← send_quad_requests fuel s0;
  let '(s1, updated) := update_gpu_quads s0 in
  Some (s1, [requested; updated]).

(** *** RAM purge *)

(** [unsigned(float(m_ram_quad_limit) * 1.1f)] *)
Definition purge_threshold (ram_quad_limit : Z) : option Z :=
  unsigned_of_float
    (SFmul prec32 emax32 (float_of_unsigned ram_quad_limit) float_1_1).

(** Whether the threshold is the integer part of 1.1 times the limit
    for the [n] limits from [L] on. *)
Fixpoint threshold_is_floor (L : Z) (n : nat) : bool :=
  match n with
  | O => true
  | Datatypes.S n' =>
      bool_decide (purge_threshold L = Some (11 * L / 10))
      && threshold_is_floor (L + 1) n'
  end.

Definition purge_ram_cache (s : Scheduler) : option Scheduler :=
  threshold ← purge_threshold (m_ram_quad_limit s);
  if Cache.n_cached_objects (m_ram_cache s) <? threshold then Some s
  else
    let ram := Cache.visit_pure (λ quad, should_refine s (TileQuad.id quad))
                                (m_ram_cache s) in
    Some (with_ram_cache (Cache.purge ram).1 s).

(** *** Parameter setters *)

Definition set_purge_timeout (new_purge_timeout : Z) (s : Scheduler)
  : option Scheduler :=
  guard (new_purge_timeout < INT_MAX);;
  let s1 := with_purge_timeout new_purge_timeout s in
  Some (if QTimer.isActive (m_purge_timer s1)
        then with_purge_timer
               (QTimer.start (to_int (m_update_timeout s1)) (m_purge_timer s1)) s1
        else s1).

Definition set_update_timeout (new_update_timeout : Z) (s : Scheduler)
  : option Scheduler :=
  guard (m_update_timeout s < INT_MAX);;
  let s1 := with_update_timeout new_update_timeout s in
  Some (if QTimer.isActive (m_update_timer s1)
        then with_update_timer
               (QTimer.start (to_int (m_update_timeout s1)) (m_update_timer s1)) s1
        else s1).

(** The remaining setters assert nothing; they share the result type of
    the two above so that all setters read alike. *)
Definition set_ram_quad_limit (new_ram_quad_limit : Z) (s : Scheduler)
  : option Scheduler :=
  let s1 := with_ram_quad_limit new_ram_quad_limit s in
  Some (with_ram_cache (Cache.set_capacity new_ram_quad_limit (m_ram_cache s1)) s1).

Definition set_gpu_quad_limit (new_gpu_quad_limit : Z) (s : Scheduler)
  : option Scheduler :=
  let s1 := with_gpu_quad_limit new_gpu_quad_limit s in
  Some (with_gpu_cached (Cache.set_capacity (m_gpu_quad_limit s1) (m_gpu_cached s1)) s1).

Definition set_aabb_decorator (new_aabb_decorator : AabbDecoratorPtr)
    (s : Scheduler) : option Scheduler :=
  Some (with_aabb_decorator new_aabb_decorator s).

Definition set_permissible_screen_space_error
    (new_permissible_screen_space_error : spec_float) (s : Scheduler)
  : option Scheduler :=
  Some (with_permissible_screen_space_error new_permissible_screen_space_error s).

Definition set_enabled (new_enabled : bool) (s : Scheduler) : option Scheduler :=
  schedule_update (with_enabled new_enabled s).

End Scheduler.

(** ** A concrete setting for examples *)

Module Sample.

(** The camera is a zoom level: a tile is refined while its zoom level
    is below it.  The decoder accepts byte strings that begin with 0xff
    and answers the null image (no pixels) for anything else, the way
    [QImage::fromData] answers a null image for bytes it cannot read. *)
#[export] Instance externals : Externals := {|
  Camera := Z;
  AabbDecoratorPtr := unit;
  Aabb := tile.Id;
  QImage := list Byte.byte;
  Raster_uint16 := list Z;
  aabb := λ _ id, id;
  refineFunctor := λ camera _ _ _ id, tile.zoom_level id <? camera;
  toQImage := λ bytes,
    match bytes with
    | Byte.xff :: pixels => pixels
    | _ => []
    end;
  qImage2uint16Raster := map (λ b, Z.of_N (Byte.to_N b))
|}.

Definition id0 : tile.Id := tile.root.
Definition id1 : tile.Id := {| tile.zoom_level := 1; tile.coords := (0, 0) |}.
Definition id2 : tile.Id := {| tile.zoom_level := 1; tile.coords := (1, 0) |}.

Definition white : QByteArray := [Byte.xff; Byte.xff; Byte.xff].
Definition black : QByteArray := [Byte.xff; Byte.x00; Byte.x00].
Definition pixels : QByteArray := [Byte.xff; Byte.x10; Byte.x20].
Definition garbage : QByteArray := [Byte.x01; Byte.x02].

Definition child (id : tile.Id) (ortho height : option QByteArray)
  : LayeredTile.t :=
  {| LayeredTile.id := id; LayeredTile.ortho := ortho; LayeredTile.height := height |}.

(** A quad with one child, whose payloads are given. *)
Definition quad (id : tile.Id) (ortho height : option QByteArray) : TileQuad.t :=
  {| TileQuad.id := id;
     TileQuad.n_tiles := 1;
     TileQuad.tiles :=
       [ child id ortho height; child id None None;
         child id None None; child id None None ] |}.

Definition ram_of (capacity : Z) (quads : list TileQuad.t) : Cache.t TileQuad.t :=
  {| Cache.m_data := map (λ q, {| Cache.data := q; Cache.useful := true |}) quads;
     Cache.m_capacity := capacity |}.

Definition idle : QTimer.t :=
  {| QTimer.isActive := false; QTimer.interval := 0; QTimer.isSingleShot := true |}.
Definition armed (msec : Z) : QTimer.t :=
  {| QTimer.isActive := true; QTimer.interval := msec; QTimer.isSingleShot := true |}.

(** A scheduler with an empty GPU shadow cache. *)
Definition scheduler (camera : Z) (ram_limit gpu_limit : Z)
    (quads : list TileQuad.t) (purge_timer : QTimer.t) : Scheduler :=
  {| m_current_camera := camera;
     m_aabb_decorator := tt;
     m_permissible_screen_space_error := S754_finite false 8388608 (-22);
     m_ortho_tile_size := 256;
     m_height_tile_size := 64;
     m_update_timeout := 100;
     m_purge_timeout := 1000;
     m_enabled := true;
     m_ram_quad_limit := ram_limit;
     m_gpu_quad_limit := gpu_limit;
     m_ram_cache := ram_of ram_limit quads;
     m_gpu_cached := {| Cache.m_data := []; Cache.m_capacity := gpu_limit |};
     m_default_ortho_tile := white;
     m_default_height_tile := black;
     m_update_timer := idle;
     m_purge_timer := purge_timer |}.

End Sample.

(** ** gl_engine::Texture: storage and uploads *)

Module TextureGL.
Import Texture.

(** Where the code is compiled: the preprocessor branches of
    [compressed_texture_format] and [compression_algorithm].  Under
    Emscripten the answer of the WebGL query for the extension
    WEBGL_compressed_texture_etc1 is part of the platform. *)
Inductive Platform :=
| Emscripten (etc1_extension : bool)
| Android
| Desktop.

Inductive CompressedFormat :=
| GL_COMPRESSED_RGB_S3TC_DXT1_EXT
| COMPRESSED_RGB_ETC1_WEBGL
| GL_COMPRESSED_RGB8_ETC2.

(** [nucleus::utils::ColourTexture::Format], the two algorithms named here. *)
Inductive Algorithm := DXT1 | ETC1.

Definition compressed_texture_format (p : Platform) : CompressedFormat :=
  match p with
  | Emscripten etc1_extension =>
      if etc1_extension then COMPRESSED_RGB_ETC1_WEBGL
      else GL_COMPRESSED_RGB_S3TC_DXT1_EXT
  | Android => GL_COMPRESSED_RGB8_ETC2
  | Desktop => GL_COMPRESSED_RGB_S3TC_DXT1_EXT
  end.

Definition compression_algorithm (p : Platform) : Algorithm :=
  match p with
  | Emscripten etc1_extension => if etc1_extension then ETC1 else DXT1
  | Android => ETC1
  | Desktop => DXT1
  end.

(** The internal format handed to GL: [GLenum(m_format)], a compressed
    format, or one of the literal constants of the upload functions. *)
Inductive InternalFormat :=
| GLenum_of_Format (f : Format)
| Compressed (c : CompressedFormat)
| GL_RGBA8
| GL_RG8
| GL_R16UI.

Inductive PixelFormat := GL_RGBA | GL_RG | GL_RED_INTEGER.
Inductive PixelType := GL_UNSIGNED_BYTE | GL_UNSIGNED_SHORT.

(** The calls into the GL context, with the arguments the code passes;
    the target is [GLenum(m_target)], sizes and indices are [GLsizei] and
    [GLint]. *)
Inductive GlCall :=
| glActiveTexture_TEXTURE0_plus (texture_unit : Z)
| glBindTexture (target : Target) (id : Z)
| glPixelStorei_UNPACK_ALIGNMENT (param : Z)
| glTexStorage3D (target : Target) (levels : Z) (internalformat : InternalFormat)
    (width height depth : Z)
| glCompressedTexImage2D (target : Target) (level : Z) (format : CompressedFormat)
    (width height border image_size : Z) (data : list Byte.byte)
| glTexImage2D (target : Target) (level : Z) (internalformat : InternalFormat)
    (width height border : Z) (format : PixelFormat) (type : PixelType)
    (data : list Byte.byte)
| glCompressedTexSubImage3D (target : Target) (level xoffset yoffset zoffset : Z)
    (width height depth : Z) (format : CompressedFormat) (image_size : Z)
    (data : list Byte.byte)
| glTexSubImage3D (target : Target) (level xoffset yoffset zoffset : Z)
    (width height depth : Z) (format : PixelFormat) (type : PixelType)
    (data : list Byte.byte)
| glGenerateMipmap (target : Target).

#[global] Instance Target_eq_dec : EqDecision Target.
Proof. solve_decision. Defined.
(** What the uploads read of a [nucleus::utils::ColourTexture] and of a
    [nucleus::Raster<T>]. *)
Record ColourTexture := {
  ct_width : Z;
  ct_height : Z;
  ct_n_bytes : Z;
  ct_data : list Byte.byte
}.

Record Raster := {
  r_width : Z;
  r_height : Z;
  r_bytes : list Byte.byte
}.

(** The texture object with the data members [allocate_array] sets. *)
Record ArrayTexture := {
  texture : Texture;
  m_width : Z;
  m_height : Z;
  m_n_layers : Z
}.

Definition bind (t : Texture) (texture_unit : Z) : list GlCall :=
  [ glActiveTexture_TEXTURE0_plus texture_unit;
    glBindTexture (m_target t) (m_id t) ].

(** [GLsizei(1 + std::floor(std::log2(std::max(width, height))))].  The
    operand is an [unsigned] below 2^32, exactly representable as a
    double, and no such value other than a power of two has a base-2
    logarithm closer than 3e-10 to an integer, so the floor of the
    computed logarithm is the integer logarithm.  For 0 the logarithm is
    minus infinity and the conversion to [GLsizei] is undefined: [None]. *)
Definition mip_levels (width height : Z) : option Z :=
  let size := Z.max width height in
  if size =? 0 then None else Some (1 + Z.log2 size).

Definition allocate_array (p : Platform) (t : ArrayTexture)
    (width height n_layers : Z) : option (ArrayTexture * list GlCall) :=
  guard (m_target (texture t) = _2dArray);;
  guard (m_format (texture t) ≠ Invalid);;
  mip_level_count ←
    (if decide (m_min_filter (texture t) = MipMapLinear)
     then mip_levels width height else Some 1);
  let internalformat :=
    if decide (m_format (texture t) = CompressedRGBA8)
    then Compressed (compressed_texture_format p)
    else GLenum_of_Format (m_format (texture t)) in
  Some ({| texture := texture t;
           m_width := width; m_height := height; m_n_layers := n_layers |},
        [ glBindTexture (m_target (texture t)) (m_id (texture t));
          glTexStorage3D (m_target (texture t)) mip_level_count internalformat
            (to_int width) (to_int height) (to_int n_layers) ]).

(** [upload(const ColourTexture&)] *)
Definition upload_colour (p : Platform) (t : Texture) (tex : ColourTexture)
  : option (list GlCall) :=
  let width := to_int (ct_width tex) in
  let height := to_int (ct_height tex) in
  if decide (m_format t = CompressedRGBA8) then
    guard (m_min_filter t ≠ MipMapLinear);;
    Some [ glBindTexture (m_target t) (m_id t);
           glPixelStorei_UNPACK_ALIGNMENT 1;
           glCompressedTexImage2D (m_target t) 0 (compressed_texture_format p)
             width height 0 (to_int (ct_n_bytes tex)) (ct_data tex) ]
  else if decide (m_format t = RGBA8) then
    Some ([ glBindTexture (m_target t) (m_id t);
            glPixelStorei_UNPACK_ALIGNMENT 1;
            glTexImage2D (m_target t) 0 GL_RGBA8 width height 0
              GL_RGBA GL_UNSIGNED_BYTE (ct_data tex) ]
          ++ (if decide (m_min_filter t = MipMapLinear)
              then [ glGenerateMipmap (m_target t) ] else []))
  else None.

(** [upload(const ColourTexture&, unsigned array_index)] *)
Definition upload_colour_layer (p : Platform) (t : ArrayTexture)
    (tex : ColourTexture) (array_index : Z) : option (list GlCall) :=
  guard (ct_width tex = m_width t);;
  guard (ct_height tex = m_height t);;
  guard (array_index < m_n_layers t);;
  let tx := texture t in
  let width := to_int (ct_width tex) in
  let height := to_int (ct_height tex) in
  if decide (m_format tx = CompressedRGBA8) then
    guard (m_min_filter tx ≠ MipMapLinear);;
    Some [ glBindTexture (m_target tx) (m_id tx);
           glPixelStorei_UNPACK_ALIGNMENT 1;
           glCompressedTexSubImage3D (m_target tx) 0 0 0 (to_int array_index)
             width height 1 (compressed_texture_format p)
             (to_int (ct_n_bytes tex)) (ct_data tex) ]
  else if decide (m_format tx = RGBA8) then
    Some ([ glBindTexture (m_target tx) (m_id tx);
            glPixelStorei_UNPACK_ALIGNMENT 1;
            glTexSubImage3D (m_target tx) 0 0 0 (to_int array_index)
              width height 1 GL_RGBA GL_UNSIGNED_BYTE (ct_data tex) ]
          ++ (if decide (m_min_filter tx = MipMapLinear)
              then [ glGenerateMipmap (m_target tx) ] else []))
  else None.

(** [upload(const Raster<glm::u8vec2>&)] *)
Definition upload_rg8 (t : Texture) (tex : Raster) : option (list GlCall) :=
  guard (m_format t = RG8);;
  Some ([ glBindTexture (m_target t) (m_id t);
          glPixelStorei_UNPACK_ALIGNMENT 1;
          glTexImage2D (m_target t) 0 GL_RG8
            (to_int (r_width tex)) (to_int (r_height tex)) 0
            GL_RG GL_UNSIGNED_BYTE (r_bytes tex) ]
        ++ (if decide (m_min_filter t = MipMapLinear)
            then [ glGenerateMipmap (m_target t) ] else [])).

(** [upload(const Raster<uint16_t>&)] *)
Definition upload_r16 (t : Texture) (tex : Raster) : option (list GlCall) :=
  guard (m_format t = R16UI);;
  guard (m_mag_filter t = Nearest);;
  guard (m_min_filter t = Nearest);;
  Some [ glBindTexture (m_target t) (m_id t);
         glPixelStorei_UNPACK_ALIGNMENT 1;
         glTexImage2D (m_target t) 0 GL_R16UI
           (to_int (r_width tex)) (to_int (r_height tex)) 0
           GL_RED_INTEGER GL_UNSIGNED_SHORT (r_bytes tex) ].

(** [upload(const Raster<uint16_t>&, unsigned array_index)] *)
Definition upload_r16_layer (t : ArrayTexture) (tex : Raster) (array_index : Z)
  : option (list GlCall) :=
  let tx := texture t in
  guard (m_format tx = R16UI);;
  guard (m_mag_filter tx = Nearest);;
  guard (m_min_filter tx = Nearest);;
  guard (array_index < m_n_layers t);;
  guard (r_width tex = m_width t);;
  guard (r_height tex = m_height t);;
  Some [ glBindTexture (m_target tx) (m_id tx);
         glPixelStorei_UNPACK_ALIGNMENT 1;
         glTexSubImage3D (m_target tx) 0 0 0 (to_int array_index)
           (to_int (r_width tex)) (to_int (r_height tex)) 1
           GL_RED_INTEGER GL_UNSIGNED_SHORT (r_bytes tex) ].

End TextureGL.

(** ** The scheduler as a receiver of calls and timer expiries *)

Section SchedulerEvents.
Context `{Ext : Externals}.

(** The purge timer is connected to [purge_ram_cache]. *)
Definition purge_pass (s : Scheduler) : option Scheduler :=
  purge_ram_cache (with_purge_timer (QTimer.fire (m_purge_timer s)) s).

(** A call of a public slot or setter, or the expiry of one of the two
    timers; [fuel] bounds the depth of the traversal of that pass. *)
Inductive Event :=
| UpdateCamera (camera : Camera)
| ReceiverQuads (new_quads : list TileQuad.t)
| SetPurgeTimeout (new_purge_timeout : Z)
| SetUpdateTimeout (new_update_timeout : Z)
| SetRamQuadLimit (new_ram_quad_limit : Z)
| SetGpuQuadLimit (new_gpu_quad_limit : Z)
| SetAabbDecorator (new_aabb_decorator : AabbDecoratorPtr)
| SetPermissibleScreenSpaceError (new_permissible_screen_space_error : spec_float)
| SetEnabled (new_enabled : bool)
| UpdateTimerTimeout (fuel : nat)
| PurgeTimerTimeout.

(** The new state and the signals emitted while the event is handled;
    [None] when an assertion stops the program (or the traversal runs out
    of fuel). *)
Definition handle (ev : Event) (s : Scheduler) : option (Scheduler * list Signal) :=
  match ev with
  | UpdateCamera camera => s' ← update_camera camera s; Some (s', [])
  | ReceiverQuads new_quads => s' ← receiver_quads new_quads s; Some (s', [])
  | SetPurgeTimeout t => s' ← set_purge_timeout t s; Some (s', [])
  | SetUpdateTimeout t => s' ← set_update_timeout t s; Some (s', [])
  | SetRamQuadLimit n => s' ← set_ram_quad_limit n s; Some (s', [])
  | SetGpuQuadLimit n => s' ← set_gpu_quad_limit n s; Some (s', [])
  | SetAabbDecorator d => s' ← set_aabb_decorator d s; Some (s', [])
  | SetPermissibleScreenSpaceError e =>
      s' ← set_permissible_screen_space_error e s; Some (s', [])
  | SetEnabled b => s' ← set_enabled b s; Some (s', [])
  | UpdateTimerTimeout fuel => update_pass fuel s
  | PurgeTimerTimeout => s' ← purge_pass s; Some (s', [])
  end.

Fixpoint run (evs : list Event) (s : Scheduler) : option (Scheduler * list Signal) :=
  match evs with
  | [] => Some (s, [])
  | ev :: evs' =>
      '(s1, emitted1) ← handle ev s;
      '(s2, emitted2) ← run evs' s1;
      Some (s2, emitted1 ++ emitted2)
  end.

(** What a [gpu_quads_updated] delta does to a set of resident ids: the
    added ones enter, the removed ones leave.  Not code of the scheduler;
    it is what the properties about sequences of deltas are stated with. *)
Definition apply_delta (resident : gset tile.Id) (sig : Signal) : gset tile.Id :=
  match sig with
  | gpu_quads_updated added removed =>
      (resident ∪ list_to_set (map GpuTileQuad.id added)) ∖ list_to_set removed
  | quads_requested _ => resident
  end.

Definition replay (sigs : list Signal) (resident : gset tile.Id) : gset tile.Id :=
  fold_left apply_delta sigs resident.

(** The ids a cache holds, as a set. *)
Definition id_set {T : Type} `{NamedTile T} (c : Cache.t T) : gset tile.Id :=
  list_to_set (Cache.ids c).

End SchedulerEvents.

(** * Properties *)

(** ** The bounded cache *)

Section CacheFacts.
Context {T : Type} `{NamedTile T}.
Implicit Types (c : Cache.t T) (os : list (Cache.CacheObject T)).

Lemma visit_objects_flags {St} (f : T → St → bool * St) (g : T → bool) os st :
  (∀ x st', (f x st').1 = g x) →
  (Cache.visit_objects f os st).1
  = map (λ o, {| Cache.data := Cache.data o; Cache.useful := g (Cache.data o) |}) os.
Proof.
  intros Hfg. revert st. induction os as [|o os IH]; intros st; cbn.
  - reflexivity.
  - specialize (Hfg (Cache.data o) st).
    destruct (f (Cache.data o) st) as [u st1]. cbn in Hfg. subst u.
    specialize (IH st1).
    destruct (Cache.visit_objects f os st1) as [os' st2]. cbn in *.
    now rewrite IH.
Qed.

Lemma visit_data {St} (f : T → St → bool * St) (g : T → bool) c st :
  (∀ x st', (f x st').1 = g x) →
  Cache.m_data (Cache.visit f c st).1
  = map (λ o, {| Cache.data := Cache.data o; Cache.useful := g (Cache.data o) |})
        (Cache.m_data c).
Proof.
  intros Hfg. unfold Cache.visit.
  rewrite <- (visit_objects_flags f g (Cache.m_data c) st Hfg).
  now destruct (Cache.visit_objects f (Cache.m_data c) st).
Qed.

Lemma visit_capacity {St} (f : T → St → bool * St) c st :
  Cache.m_capacity (Cache.visit f c st).1 = Cache.m_capacity c.
Proof.
  unfold Cache.visit. now destruct (Cache.visit_objects f (Cache.m_data c) st).
Qed.

Lemma visit_pure_data (g : T → bool) c :
  Cache.m_data (Cache.visit_pure g c)
  = map (λ o, {| Cache.data := Cache.data o; Cache.useful := g (Cache.data o) |})
        (Cache.m_data c).
Proof. unfold Cache.visit_pure. now apply visit_data. Qed.

Lemma visit_pure_capacity (g : T → bool) c :
  Cache.m_capacity (Cache.visit_pure g c) = Cache.m_capacity c.
Proof. unfold Cache.visit_pure. apply visit_capacity. Qed.

Lemma flags_map_ids (g : T → bool) os :
  map (λ o, tile_id (Cache.data o))
      (map (λ o, {| Cache.data := Cache.data o; Cache.useful := g (Cache.data o) |}) os)
  = map (λ o, tile_id (Cache.data o)) os.
Proof. rewrite map_map. reflexivity. Qed.

Lemma visit_pure_ids (g : T → bool) c :
  Cache.ids (Cache.visit_pure g c) = Cache.ids c.
Proof. unfold Cache.ids. rewrite visit_pure_data. apply flags_map_ids. Qed.

Lemma contains_spec id c : Cache.contains id c = true ↔ id ∈ Cache.ids c.
Proof. unfold Cache.contains. apply bool_decide_eq_true. Qed.

End CacheFacts.

(** ** The update pass: stages and frame *)

Section UpdateFacts.
Context `{Ext : Externals}.
Implicit Types (s : Scheduler).

Lemma update_gpu_quads_stages s :
  update_gpu_quads s
  = (with_gpu_cached (Cache.purge (gpu_cached_before_purge s)).1
       (with_ram_cache (Cache.visit (promote s) (m_ram_cache s) []).1 s),
     gpu_quads_updated
       (erase_superfluous (new_gpu_quads s) (superfluous_ids s)).1
       (elements (erase_superfluous (new_gpu_quads s) (superfluous_ids s)).2)).
Proof.
  unfold update_gpu_quads, superfluous_ids, gpu_cached_before_purge, new_gpu_quads.
  destruct (Cache.visit (promote s) (m_ram_cache s) []) as [ram quads]. cbn.
  destruct (Cache.purge _) as [gpu3 evicted]. cbn.
  destruct (erase_superfluous _ _) as [added removed]. reflexivity.
Qed.

Lemma promote_flag s quad acc :
  (promote s quad acc).1 = should_refine s (TileQuad.id quad).
Proof.
  unfold promote. destruct (should_refine s (TileQuad.id quad)); cbn; [|reflexivity].
  now destruct (Cache.contains _ _).
Qed.

Lemma update_gpu_quads_ram s :
  m_ram_cache (update_gpu_quads s).1
  = (Cache.visit (promote s) (m_ram_cache s) []).1.
Proof. rewrite update_gpu_quads_stages. reflexivity. Qed.

Lemma update_gpu_quads_gpu s :
  m_gpu_cached (update_gpu_quads s).1
  = (Cache.purge (gpu_cached_before_purge s)).1.
Proof. rewrite update_gpu_quads_stages. reflexivity. Qed.

Lemma update_gpu_quads_should_refine s :
  should_refine (update_gpu_quads s).1 = should_refine s.
Proof. rewrite update_gpu_quads_stages. reflexivity. Qed.

(** C10: the visit of the RAM cache inside the update pass rewrites the
    useful flag of every RAM entry to the value of the refinement
    predicate on its id (false when the id fails it, true when it
    passes); the cached quads, their ids, their order and the capacity
    are what they were, and no entry is removed. *)
Theorem update_gpu_quads_rewrites_ram_flags s :
  let ram := m_ram_cache s in
  let ram' := m_ram_cache (update_gpu_quads s).1 in
  Cache.m_data ram'
  = map (λ o, {| Cache.data := Cache.data o;
                 Cache.useful := should_refine s (TileQuad.id (Cache.data o)) |})
        (Cache.m_data ram)
  ∧ map Cache.data (Cache.m_data ram') = map Cache.data (Cache.m_data ram)
  ∧ Cache.ids ram' = Cache.ids ram
  ∧ Cache.n_cached_objects ram' = Cache.n_cached_objects ram
  ∧ Cache.m_capacity ram' = Cache.m_capacity ram.
Proof.
  cbn zeta. rewrite update_gpu_quads_ram.
  pose proof (visit_data (promote s) (λ q, should_refine s (TileQuad.id q))
                (m_ram_cache s) [] (promote_flag s)) as Hdata.
  split; [exact Hdata|].
  unfold Cache.ids, Cache.n_cached_objects. rewrite Hdata.
  rewrite !map_map, length_map. cbn.
  repeat split. apply visit_capacity.
Qed.

End UpdateFacts.

(** ** Promotion and delta reconciliation *)

(** [List.map] and the list functor of stdpp are the same function. *)
Ltac map_as_fmap :=
  repeat match goal with
         | |- context [map ?f ?l] => change (map f l) with (f <$> l)
         | H : context [map ?f ?l] |- _ => change (map f l) with (f <$> l) in H
         end.

Section ReconcileFacts.
Context `{Ext : Externals}.
Implicit Types (s : Scheduler) (ids : gset tile.Id) (quads : list GpuTileQuad.t).

(** The quads of the RAM cache that the promotion functor converts. *)
Lemma visit_objects_promote s os acc :
  (Cache.visit_objects (promote s) os acc).2
  = acc ++ map (make_gpu_quad s)
             (filter (λ q, should_refine s (TileQuad.id q) = true
                           ∧ Cache.contains (TileQuad.id q) (m_gpu_cached s) = false)
                     (map Cache.data os)).
Proof.
  revert acc. induction os as [|o os IH]; intros acc; cbn.
  - now rewrite app_nil_r.
  - unfold promote at 1.
    destruct (should_refine s (TileQuad.id (Cache.data o))) eqn:Hr; cbn.
    + destruct (Cache.contains (TileQuad.id (Cache.data o)) (m_gpu_cached s)) eqn:Hc.
      * specialize (IH acc).
        destruct (Cache.visit_objects (promote s) os acc) as [os' st]. cbn in *.
        destruct (decide _) as [[_ [=]]|_]. exact IH.
      * specialize (IH (acc ++ [make_gpu_quad s (Cache.data o)])).
        destruct (Cache.visit_objects (promote s) os _) as [os' st]. cbn in *.
        destruct (decide _) as [_|Hn]; [|exfalso; apply Hn; split; reflexivity].
        cbn. rewrite IH, <- app_assoc. reflexivity.
    + specialize (IH acc).
      destruct (Cache.visit_objects (promote s) os acc) as [os' st]. cbn in *.
      destruct (decide _) as [[[=] _]|_]. exact IH.
Qed.

Lemma new_gpu_quads_spec s :
  new_gpu_quads s
  = map (make_gpu_quad s)
        (filter (λ q, should_refine s (TileQuad.id q) = true
                      ∧ Cache.contains (TileQuad.id q) (m_gpu_cached s) = false)
                (map Cache.data (Cache.m_data (m_ram_cache s)))).
Proof.
  unfold new_gpu_quads, Cache.visit.
  pose proof (visit_objects_promote s (Cache.m_data (m_ram_cache s)) []) as Hv.
  destruct (Cache.visit_objects (promote s) _ []) as [os st]. exact Hv.
Qed.

Lemma new_gpu_quads_ids_sublist s :
  map GpuTileQuad.id (new_gpu_quads s) `sublist_of` Cache.ids (m_ram_cache s).
Proof.
  rewrite new_gpu_quads_spec. unfold Cache.ids.
  rewrite map_map. cbn.
  rewrite <- (map_map Cache.data TileQuad.id).
  map_as_fmap. apply fmap_sublist, sublist_filter.
Qed.

Lemma new_gpu_quads_NoDup s :
  NoDup (Cache.ids (m_ram_cache s)) → NoDup (map GpuTileQuad.id (new_gpu_quads s)).
Proof. intros Hnd. eapply sublist_NoDup; [exact Hnd|apply new_gpu_quads_ids_sublist]. Qed.

(** *** [erase_superfluous] *)

Lemma erase_superfluous_subset quads ids :
  (erase_superfluous quads ids).2 ⊆ ids.
Proof.
  revert ids. induction quads as [|q quads IH]; intros ids; cbn; [done|].
  destruct (decide (GpuTileQuad.id q ∈ ids)) as [Hin|Hin].
  - specialize (IH (ids ∖ {[GpuTileQuad.id q]})). set_solver.
  - specialize (IH ids). destruct (erase_superfluous quads ids). exact IH.
Qed.

Lemma erase_superfluous_kept_sublist quads ids :
  (erase_superfluous quads ids).1 `sublist_of` quads.
Proof.
  revert ids. induction quads as [|q quads IH]; intros ids; cbn; [done|].
  destruct (decide (GpuTileQuad.id q ∈ ids)) as [Hin|Hin].
  - apply sublist_cons, IH.
  - specialize (IH ids). destruct (erase_superfluous quads ids).
    cbn in *. now apply sublist_skip.
Qed.

(** A quad that stays in the vector has an id outside the final set. *)
Lemma erase_superfluous_kept quads ids q :
  q ∈ (erase_superfluous quads ids).1 →
  GpuTileQuad.id q ∉ (erase_superfluous quads ids).2.
Proof.
  revert ids. induction quads as [|q0 quads IH]; intros ids; cbn.
  - intros Hq. now apply elem_of_nil in Hq.
  - destruct (decide (GpuTileQuad.id q0 ∈ ids)) as [Hin|Hin].
    + apply IH.
    + specialize (IH ids).
      pose proof (erase_superfluous_subset quads ids) as Hsub.
      destruct (erase_superfluous quads ids) as [kept ids']. cbn in *.
      intros [->|Hq]%elem_of_cons; [set_solver|auto].
Qed.

(** An id that was in the set and belongs to some quad of the vector
    has left the set. *)
Lemma erase_superfluous_removed quads ids q :
  q ∈ quads → GpuTileQuad.id q ∈ ids →
  GpuTileQuad.id q ∉ (erase_superfluous quads ids).2.
Proof.
  revert ids. induction quads as [|q0 quads IH]; intros ids Hq Hid; cbn.
  - now apply elem_of_nil in Hq.
  - destruct (decide (GpuTileQuad.id q0 ∈ ids)) as [Hin|Hin].
    + destruct (decide (GpuTileQuad.id q = GpuTileQuad.id q0)) as [Heq|Hne].
      * pose proof (erase_superfluous_subset quads (ids ∖ {[GpuTileQuad.id q0]})).
        set_solver.
      * apply elem_of_cons in Hq as [->|Hq]; [done|].
        apply IH; [exact Hq|set_solver].
    + apply elem_of_cons in Hq as [->|Hq]; [done|].
      specialize (IH ids Hq Hid).
      destruct (erase_superfluous quads ids). exact IH.
Qed.

(** With distinct ids in the vector, such a quad has left the vector too. *)
Lemma erase_superfluous_erased quads ids q :
  NoDup (map GpuTileQuad.id quads) →
  q ∈ quads → GpuTileQuad.id q ∈ ids →
  GpuTileQuad.id q ∉ map GpuTileQuad.id (erase_superfluous quads ids).1.
Proof.
  revert ids. induction quads as [|q0 quads IH]; intros ids Hnd Hq Hid; cbn.
  - now apply elem_of_nil in Hq.
  - cbn in Hnd. apply NoDup_cons in Hnd as [Hq0 Hnd].
    assert (Hmem : ∀ q', q' ∈ quads → GpuTileQuad.id q' ≠ GpuTileQuad.id q0).
    { intros q' Hq' Heq. apply Hq0. rewrite <- Heq.
      map_as_fmap. now apply list_elem_of_fmap_2. }
    destruct (decide (GpuTileQuad.id q0 ∈ ids)) as [Hin|Hin].
    + apply elem_of_cons in Hq as [->|Hq].
      * intros Hk. apply Hq0.
        pose proof (erase_superfluous_kept_sublist quads (ids ∖ {[GpuTileQuad.id q0]})) as Hs.
        map_as_fmap. apply list_elem_of_fmap in Hk as (q' & Heq & Hq').
        rewrite Heq. apply list_elem_of_fmap_2.
        eapply elem_of_sublist; eauto.
      * apply IH; [exact Hnd|exact Hq|]. specialize (Hmem q Hq). set_solver.
    + apply elem_of_cons in Hq as [->|Hq]; [done|].
      specialize (IH ids Hnd Hq Hid).
      destruct (erase_superfluous quads ids) as [kept ids']. cbn in *.
      intros [Heq|Hk]%elem_of_cons; [|auto].
      now apply (Hmem q Hq).
Qed.

(** C2: in the one [gpu_quads_updated] an update pass emits, no quad of
    the added list has its id in the removed list; a quad that the pass
    promoted and whose id the shadow-cache purge evicted is absent from
    the removed list and, the ids of the RAM cache being distinct, from
    the added list as well. *)
Theorem update_gpu_quads_delta_disjoint s :
  ∃ added removed,
    (update_gpu_quads s).2 = gpu_quads_updated added removed
    ∧ (∀ q, q ∈ added → GpuTileQuad.id q ∉ removed)
    ∧ (∀ q, q ∈ new_gpu_quads s → GpuTileQuad.id q ∈ superfluous_ids s →
            GpuTileQuad.id q ∉ removed)
    ∧ (NoDup (Cache.ids (m_ram_cache s)) →
       ∀ q, q ∈ new_gpu_quads s → GpuTileQuad.id q ∈ superfluous_ids s →
            GpuTileQuad.id q ∉ map GpuTileQuad.id added).
Proof.
  rewrite update_gpu_quads_stages. cbn.
  eexists _, _. split; [reflexivity|]. repeat split.
  - intros q Hq Hr. apply elem_of_elements in Hr.
    now apply (erase_superfluous_kept _ _ _ Hq).
  - intros q Hq Hid Hr. apply elem_of_elements in Hr.
    now apply (erase_superfluous_removed _ _ _ Hq Hid).
  - intros Hnd q Hq Hid.
    apply erase_superfluous_erased; auto using new_gpu_quads_NoDup.
Qed.

End ReconcileFacts.

(** ** The tiles of a promoted quad *)

Section PromotionFacts.
Context `{Ext : Externals}.
Implicit Types (s : Scheduler) (src : list LayeredTile.t)
               (slots : list (option GpuTile.t)).

Lemma fill_slots_length s src a n slots :
  length (fold_left
            (λ slots i,
               match src !! i with
               | Some t => <[ i := Some (make_gpu_tile s t) ]> slots
               | None => slots
               end) (seq a n) slots)
  = length slots.
Proof.
  revert a slots. induction n as [|n IH]; intros a slots; cbn; [reflexivity|].
  rewrite IH. destruct (src !! a); [apply length_insert|reflexivity].
Qed.

Lemma fill_slots_before s src a n slots (i : nat) :
  (i < a)%nat →
  fold_left
    (λ slots i,
       match src !! i with
       | Some t => <[ i := Some (make_gpu_tile s t) ]> slots
       | None => slots
       end) (seq a n) slots !! i
  = slots !! i.
Proof.
  revert a slots. induction n as [|n IH]; intros a slots Hi; cbn; [reflexivity|].
  rewrite IH by lia.
  destruct (src !! a); [|reflexivity].
  apply list_lookup_insert_ne. lia.
Qed.

Lemma fill_slots_lookup s src a n slots (i : nat) t :
  (a ≤ i < a + n)%nat → (i < length slots)%nat → src !! i = Some t →
  fold_left
    (λ slots i,
       match src !! i with
       | Some t => <[ i := Some (make_gpu_tile s t) ]> slots
       | None => slots
       end) (seq a n) slots !! i
  = Some (Some (make_gpu_tile s t)).
Proof.
  revert a slots. induction n as [|n IH]; intros a slots Hi Hlen Hsrc; [lia|].
  cbn. destruct (decide (i = a)) as [->|Hne].
  - rewrite fill_slots_before by lia. rewrite Hsrc.
    now apply list_lookup_insert_eq.
  - apply IH; [lia| |exact Hsrc].
    destruct (src !! a); [now rewrite length_insert|exact Hlen].
Qed.

(** Slot [i] of a promoted quad is the conversion of child [i]. *)
Lemma make_gpu_quad_slot s quad (i : nat) t :
  TileQuad.tiles quad !! i = Some t →
  (i < Z.to_nat (TileQuad.n_tiles quad))%nat → (i < 4)%nat →
  GpuTileQuad.tiles (make_gpu_quad s quad) !! i = Some (Some (make_gpu_tile s t)).
Proof.
  intros Ht Hn H4. unfold make_gpu_quad. cbn.
  apply fill_slots_lookup; [lia|cbn; lia|exact Ht].
Qed.

Lemma new_gpu_quads_origin s q :
  q ∈ new_gpu_quads s →
  ∃ quad, quad ∈ map Cache.data (Cache.m_data (m_ram_cache s))
          ∧ should_refine s (TileQuad.id quad) = true
          ∧ Cache.contains (TileQuad.id quad) (m_gpu_cached s) = false
          ∧ q = make_gpu_quad s quad.
Proof.
  rewrite new_gpu_quads_spec. map_as_fmap.
  intros (quad & -> & Hq)%list_elem_of_fmap.
  apply list_elem_of_filter in Hq as [[Hr Hc] Hq].
  now exists quad.
Qed.

Lemma new_gpu_quads_intro s quad :
  quad ∈ map Cache.data (Cache.m_data (m_ram_cache s)) →
  should_refine s (TileQuad.id quad) = true →
  Cache.contains (TileQuad.id quad) (m_gpu_cached s) = false →
  make_gpu_quad s quad ∈ new_gpu_quads s.
Proof.
  intros Hq Hr Hc. rewrite new_gpu_quads_spec. map_as_fmap.
  apply list_elem_of_fmap_2, list_elem_of_filter. auto.
Qed.

(** C6: for a quad promoted during an update pass and a child tile of
    it, a nil ortho payload makes the ortho image the decoding of the
    default ortho blob and a nil height payload makes the height raster
    the one decoded from the default height blob; the height raster is
    the same whatever the ortho payload is; the pass emits its
    [gpu_quads_updated] and nothing else. *)
Theorem promoted_tile_missing_payload s q :
  q ∈ new_gpu_quads s →
  (∃ added removed, (update_gpu_quads s).2 = gpu_quads_updated added removed)
  ∧ ∃ quad,
      quad ∈ map Cache.data (Cache.m_data (m_ram_cache s))
      ∧ q = make_gpu_quad s quad
      ∧ ∀ (i : nat) t,
          TileQuad.tiles quad !! i = Some t →
          (i < Z.to_nat (TileQuad.n_tiles quad))%nat → (i < 4)%nat →
          ∃ g, GpuTileQuad.tiles q !! i = Some (Some g)
               ∧ (LayeredTile.ortho t = None →
                  GpuTile.ortho g = toQImage (m_default_ortho_tile s))
               ∧ (LayeredTile.height t = None →
                  GpuTile.height g
                  = qImage2uint16Raster (toQImage (m_default_height_tile s)))
               ∧ (∀ ortho,
                    GpuTile.height g
                    = GpuTile.height
                        (make_gpu_tile s
                           {| LayeredTile.id := LayeredTile.id t;
                              LayeredTile.ortho := ortho;
                              LayeredTile.height := LayeredTile.height t |})).
Proof.
  intros Hq. split.
  { rewrite update_gpu_quads_stages. cbn. eauto. }
  apply new_gpu_quads_origin in Hq as (quad & Hin & _ & _ & ->).
  exists quad. split; [exact Hin|]. split; [reflexivity|].
  intros i t Ht Hn H4. exists (make_gpu_tile s t).
  split; [now apply make_gpu_quad_slot|].
  unfold make_gpu_tile. cbn. repeat split.
  - now intros ->.
  - now intros ->.
Qed.

(** C5, amended: when the bytes of a payload are present, the GPU
    promotion step hands exactly those bytes to the decoder, whether or
    not they are decodable; the ortho image of the GPU tile is the
    decoder's answer for them and the height raster is the raster of the
    decoder's answer, and no default blob is involved. *)
Theorem promoted_tile_present_payload s q :
  q ∈ new_gpu_quads s →
  ∃ quad,
    quad ∈ map Cache.data (Cache.m_data (m_ram_cache s))
    ∧ q = make_gpu_quad s quad
    ∧ ∀ (i : nat) t,
        TileQuad.tiles quad !! i = Some t →
        (i < Z.to_nat (TileQuad.n_tiles quad))%nat → (i < 4)%nat →
        ∃ g, GpuTileQuad.tiles q !! i = Some (Some g)
             ∧ (∀ bytes, LayeredTile.ortho t = Some bytes →
                         GpuTile.ortho g = toQImage bytes)
             ∧ (∀ bytes, LayeredTile.height t = Some bytes →
                         GpuTile.height g = qImage2uint16Raster (toQImage bytes)).
Proof.
  intros Hq.
  apply new_gpu_quads_origin in Hq as (quad & Hin & _ & _ & ->).
  exists quad. split; [exact Hin|]. split; [reflexivity|].
  intros i t Ht Hn H4. exists (make_gpu_tile s t).
  split; [now apply make_gpu_quad_slot|].
  unfold make_gpu_tile. cbn. split; intros bytes ->; reflexivity.
Qed.

End PromotionFacts.

(** ** Fetch requests *)

Section RequestFacts.
Context `{Ext : Externals}.
Implicit Types (s : Scheduler).

(** The expansion callback of [tiles_for_current_camera_position]. *)
Abbreviation record_inner := (λ v inner, (tile.children v, inner ++ [v])).

Lemma fold_children_is_Some {S : Type} fuel predicate
    (generate_children : tile.Id → S → list tile.Id * S) children acc :
  (∀ c st, c ∈ children →
           is_Some (quad_tree.onTheFlyTraverse fuel c predicate generate_children st)) →
  is_Some acc →
  is_Some (fold_left
             (λ acc child,
                '(leaves, st2) ← acc;
                '(sub, st3) ← quad_tree.onTheFlyTraverse fuel child predicate
                                 generate_children st2;
                Some (leaves ++ sub, st3))
             children acc).
Proof.
  revert acc. induction children as [|c cs IH]; intros acc Hall Hacc; cbn.
  - exact Hacc.
  - apply IH.
    + intros c' st Hc'. apply Hall. now right.
    + destruct Hacc as [[leaves st2] ->]. cbn.
      destruct (Hall c st2) as [[sub st3] ->]; [now left|]. cbn. eauto.
Qed.

Lemma children_zoom_level v c :
  c ∈ tile.children v → tile.zoom_level c = (tile.zoom_level v + 1) mod UINT_MOD.
Proof.
  unfold tile.children. intros Hc.
  repeat (apply elem_of_cons in Hc as [->|Hc]; [reflexivity|]).
  now apply elem_of_nil in Hc.
Qed.

(** A predicate that refuses every tile at zoom level [d] or deeper
    bounds the recursion: [d + 1] levels of fuel are enough from the
    root, and in general [d - zoom + 1] levels. *)
Lemma onTheFlyTraverse_capped predicate d :
  0 ≤ d < UINT_MOD →
  (∀ id, d ≤ tile.zoom_level id → predicate id = false) →
  ∀ fuel id (inner : list tile.Id),
    0 ≤ tile.zoom_level id →
    (Z.to_nat (d - tile.zoom_level id) < fuel)%nat →
    is_Some (quad_tree.onTheFlyTraverse fuel id predicate record_inner inner).
Proof.
  intros Hd Hcap. induction fuel as [|fuel IH]; intros id inner Hz Hfuel; [lia|].
  cbn [quad_tree.onTheFlyTraverse].
  destruct (predicate id) eqn:Hp; [|eauto].
  assert (tile.zoom_level id < d) as Hlt.
  { destruct (decide (d ≤ tile.zoom_level id)) as [Hge|]; [|lia].
    rewrite (Hcap id Hge) in Hp. discriminate. }
  apply fold_children_is_Some; [|eauto].
  intros c st Hc. apply children_zoom_level in Hc.
  rewrite Z.mod_small in Hc by (unfold UINT_MOD in *; lia).
  apply IH; lia.
Qed.

Lemma tiles_for_current_camera_position_capped s d :
  0 ≤ d < UINT_MOD →
  (∀ id, d ≤ tile.zoom_level id → should_refine s id = false) →
  is_Some (tiles_for_current_camera_position (Datatypes.S (Z.to_nat d)) s).
Proof.
  intros Hd Hcap. unfold tiles_for_current_camera_position.
  destruct (onTheFlyTraverse_capped (should_refine s) d Hd Hcap
              (Datatypes.S (Z.to_nat d)) tile.root []) as [[leaves inner] ->];
    cbn; [lia|lia|eauto].
Qed.

(** C1: when the traversal with the refinement predicate yields the
    working set [W], [send_quad_requests] emits [quads_requested] with
    [W] minus the ids of the RAM cache, in the order of [W]: an id is
    emitted exactly when it is in [W] and not in the RAM cache.  The
    traversal does yield a working set, and the request is emitted, as
    soon as the predicate refuses every tile from some zoom level on. *)
Theorem send_quad_requests_working_set_minus_ram s :
  (∀ fuel W,
     tiles_for_current_camera_position fuel s = Some W →
     ∃ ids,
       send_quad_requests fuel s = Some (quads_requested ids)
       ∧ ids = filter (λ id, ¬ Cache.contains id (m_ram_cache s)) W
       ∧ ∀ id, id ∈ ids ↔ id ∈ W ∧ id ∉ Cache.ids (m_ram_cache s))
  ∧ (∀ d,
       0 ≤ d < UINT_MOD →
       (∀ id, d ≤ tile.zoom_level id → should_refine s id = false) →
       ∃ W ids,
         tiles_for_current_camera_position (Datatypes.S (Z.to_nat d)) s = Some W
         ∧ send_quad_requests (Datatypes.S (Z.to_nat d)) s
           = Some (quads_requested ids)).
Proof.
  split.
  - intros fuel W HW. eexists. unfold send_quad_requests. rewrite HW. cbn.
    split; [reflexivity|]. split; [reflexivity|].
    intros id. rewrite list_elem_of_filter.
    rewrite <- contains_spec.
    destruct (Cache.contains id (m_ram_cache s)); cbn; intuition congruence.
  - intros d Hd Hcap.
    destruct (tiles_for_current_camera_position_capped s d Hd Hcap) as [W HW].
    exists W. eexists. split; [exact HW|].
    unfold send_quad_requests. rewrite HW. reflexivity.
Qed.

(** The update pass emits that request first, then the GPU delta. *)
Lemma update_pass_signals fuel s W :
  tiles_for_current_camera_position fuel s = Some W →
  ∃ s' updated,
    update_pass fuel s
    = Some (s', [ quads_requested
                    (filter (λ id, ¬ Cache.contains id (m_ram_cache s)) W);
                  updated ]).
Proof.
  intros HW. unfold update_pass.
  set (s0 := with_update_timer _ s).
  assert (tiles_for_current_camera_position fuel s0 = Some W) as HW0 by exact HW.
  unfold send_quad_requests. rewrite HW0. cbn.
  destruct (update_gpu_quads s0) as [s1 updated]. eauto.
Qed.

End RequestFacts.

(** ** Timers and setters *)

Section SetterFacts.
Context `{Ext : Externals}.
Implicit Types (s : Scheduler).

(** With the purge timer armed, [set_purge_timeout] stores the new
    purge timeout and restarts the timer with the update timeout. *)
Lemma set_purge_timeout_armed s t :
  t < INT_MAX → QTimer.isActive (m_purge_timer s) = true →
  ∃ s', set_purge_timeout t s = Some s'
        ∧ m_purge_timeout s' = t
        ∧ QTimer.isActive (m_purge_timer s') = true
        ∧ QTimer.interval (m_purge_timer s') = to_int (m_update_timeout s).
Proof.
  intros Ht Hact. unfold set_purge_timeout.
  rewrite option_guard_True by exact Ht. cbn. rewrite Hact.
  eexists. split; [reflexivity|]. cbn. auto.
Qed.

(** Its sibling restarts the update timer with the value just stored. *)
Lemma set_update_timeout_armed s t :
  m_update_timeout s < INT_MAX → QTimer.isActive (m_update_timer s) = true →
  ∃ s', set_update_timeout t s = Some s'
        ∧ m_update_timeout s' = t
        ∧ QTimer.isActive (m_update_timer s') = true
        ∧ QTimer.interval (m_update_timer s') = to_int t.
Proof.
  intros Ht Hact. unfold set_update_timeout.
  rewrite option_guard_True by exact Ht. cbn. rewrite Hact.
  eexists. split; [reflexivity|]. cbn. auto.
Qed.

(** C8, amended: [set_purge_timeout] checks the supplied value before
    storing it and rejects exactly the timeouts that are not below
    INT_MAX, so every timeout that does not fit in a signed int is
    rejected; [set_ram_quad_limit], [set_gpu_quad_limit],
    [set_permissible_screen_space_error] and [set_aabb_decorator] check
    nothing and store whatever they are given; whether [set_enabled]
    goes through depends on the stored update timeout only. *)
Theorem setters_preconditions s :
  (∀ t, set_purge_timeout t s = None ↔ INT_MAX ≤ t)
  ∧ (∀ t s', set_purge_timeout t s = Some s' → m_purge_timeout s' = t)
  ∧ (∀ n, ∃ s', set_ram_quad_limit n s = Some s'
                ∧ m_ram_quad_limit s' = n
                ∧ Cache.m_capacity (m_ram_cache s') = n)
  ∧ (∀ n, ∃ s', set_gpu_quad_limit n s = Some s'
                ∧ m_gpu_quad_limit s' = n
                ∧ Cache.m_capacity (m_gpu_cached s') = n)
  ∧ (∀ e, ∃ s', set_permissible_screen_space_error e s = Some s'
                ∧ m_permissible_screen_space_error s' = e)
  ∧ (∀ d, ∃ s', set_aabb_decorator d s = Some s' ∧ m_aabb_decorator s' = d)
  ∧ (∀ b, is_Some (set_enabled b s) ↔ m_update_timeout s < INT_MAX).
Proof.
  repeat split.
  - unfold set_purge_timeout. intros Hnone.
    destruct (decide (t < INT_MAX)) as [Hlt|]; [|lia].
    rewrite option_guard_True in Hnone by exact Hlt. discriminate Hnone.
  - intros Hge. unfold set_purge_timeout.
    rewrite option_guard_False by lia. reflexivity.
  - intros t s'. unfold set_purge_timeout.
    destruct (decide (t < INT_MAX)) as [Hlt|Hge].
    + rewrite option_guard_True by exact Hlt. cbn.
      intros [= <-]. now destruct (QTimer.isActive _).
    + rewrite option_guard_False by exact Hge. discriminate.
  - intros n. eexists. split; [reflexivity|]. cbn. auto.
  - intros n. eexists. split; [reflexivity|]. cbn. auto.
  - intros e. eexists. split; [reflexivity|]. reflexivity.
  - intros d. eexists. split; [reflexivity|]. reflexivity.
  - unfold set_enabled, schedule_update. cbn. intros [s' Hs'].
    destruct (decide (m_update_timeout s < INT_MAX)) as [|Hge]; [assumption|].
    rewrite option_guard_False in Hs' by exact Hge. discriminate Hs'.
  - intros Hlt. unfold set_enabled, schedule_update. cbn.
    rewrite option_guard_True by exact Hlt. cbn. eauto.
Qed.

End SetterFacts.

(** ** Purging *)

Section PurgeFacts.
Context {T : Type} `{NamedTile T}.
Implicit Types (c : Cache.t T) (os : list (Cache.CacheObject T))
               (p : Cache.CacheObject T → bool).

Lemma evict_where_zero p os : Cache.evict_where p 0 os = (os, []).
Proof. now destruct os. Qed.

Lemma evict_where_length p k os :
  (length (Cache.evict_where p k os).1 + length (Cache.evict_where p k os).2
   = length os)%nat.
Proof.
  revert k. induction os as [|o os IH]; intros k; cbn; [reflexivity|].
  destruct k as [|k]; cbn; [lia|].
  destruct (p o).
  - specialize (IH k). destruct (Cache.evict_where p k os). cbn in *. lia.
  - specialize (IH (Datatypes.S k)).
    destruct (Cache.evict_where p (Datatypes.S k) os). cbn in *. lia.
Qed.

(** Enough candidates: exactly [k] entries go. *)
Lemma evict_where_full p k os :
  (k ≤ length (filter (λ o, p o = true) os))%nat →
  length (Cache.evict_where p k os).2 = k.
Proof.
  revert k. induction os as [|o os IH]; intros k Hk.
  { cbn in *. lia. }
  destruct k as [|k]; [reflexivity|].
  cbn [Cache.evict_where].
  destruct (p o) eqn:Hp.
  - rewrite filter_cons_True in Hk by exact Hp.
    assert (length (Cache.evict_where p k os).2 = k) as IHk.
    { apply IH. apply le_S_n. exact Hk. }
    destruct (Cache.evict_where p k os). cbn in *. now rewrite IHk.
  - rewrite filter_cons_False in Hk by (rewrite Hp; discriminate).
    specialize (IH (Datatypes.S k) Hk).
    destruct (Cache.evict_where p (Datatypes.S k) os). exact IH.
Qed.

(** An entry that is no candidate stays. *)
Lemma evict_where_keeps p k os o :
  o ∈ os → p o = false → o ∈ (Cache.evict_where p k os).1.
Proof.
  revert k. induction os as [|o0 os IH]; intros k Ho Hp; cbn.
  - exact Ho.
  - destruct k as [|k]; [exact Ho|].
    destruct (p o0) eqn:Hp0.
    + apply elem_of_cons in Ho as [->|Ho]; [congruence|].
      specialize (IH k Ho Hp). now destruct (Cache.evict_where p k os).
    + specialize (IH (Datatypes.S k)).
      destruct (Cache.evict_where p (Datatypes.S k) os). cbn in *.
      apply elem_of_cons in Ho as [->|Ho]; [now left|right; auto].
Qed.

Lemma count_complement os :
  (length (filter (λ o, negb (Cache.useful o) = true) os)
   + length (filter (λ o, Cache.useful o = true) os) = length os)%nat.
Proof.
  induction os as [|o os IH]; [reflexivity|].
  destruct (Cache.useful o) eqn:Hu.
  - rewrite filter_cons_False by (rewrite Hu; cbn; discriminate).
    rewrite filter_cons_True by exact Hu.
    cbn [length]. lia.
  - rewrite filter_cons_True by (rewrite Hu; reflexivity).
    rewrite filter_cons_False by (rewrite Hu; discriminate).
    cbn [length]. lia.
Qed.

(** Within capacity, [purge] changes nothing and returns nothing. *)
Lemma purge_within_capacity c :
  Cache.n_cached_objects c ≤ Cache.m_capacity c →
  Cache.purge c = (c, []).
Proof.
  unfold Cache.n_cached_objects, Cache.purge. intros Hle.
  replace (length (Cache.m_data c) - Z.to_nat (Cache.m_capacity c))%nat with 0%nat by lia.
  rewrite evict_where_zero. cbn. rewrite evict_where_zero.
  now destruct c.
Qed.

(** When the useful entries fit, [purge] keeps all of them and ends
    within capacity. *)
Lemma purge_keeps_useful c :
  0 ≤ Cache.m_capacity c →
  Z.of_nat (length (filter (λ o, Cache.useful o = true) (Cache.m_data c)))
    ≤ Cache.m_capacity c →
  Cache.n_cached_objects (Cache.purge c).1 ≤ Cache.m_capacity c
  ∧ Cache.m_capacity (Cache.purge c).1 = Cache.m_capacity c
  ∧ ∀ o, o ∈ Cache.m_data c → Cache.useful o = true →
         o ∈ Cache.m_data (Cache.purge c).1.
Proof.
  intros Hcap Hfit. unfold Cache.purge, Cache.n_cached_objects.
  set (excess := (length (Cache.m_data c) - Z.to_nat (Cache.m_capacity c))%nat).
  pose proof (count_complement (Cache.m_data c)) as Hcount.
  assert (excess ≤ length (filter (λ o, negb (Cache.useful o) = true)
                                  (Cache.m_data c)))%nat as Hexcess by lia.
  pose proof (evict_where_full (λ o, negb (Cache.useful o)) excess _ Hexcess) as Hfull.
  pose proof (evict_where_length (λ o, negb (Cache.useful o)) excess (Cache.m_data c)) as Hlen.
  pose proof (evict_where_keeps (λ o, negb (Cache.useful o)) excess (Cache.m_data c)) as Hkeep.
  destruct (Cache.evict_where _ excess (Cache.m_data c)) as [kept1 removed1].
  cbn in *. rewrite Hfull, Nat.sub_diag, evict_where_zero. cbn.
  repeat split.
  - lia.
  - intros o Ho Hu. apply Hkeep; [exact Ho|]. now rewrite Hu.
Qed.

End PurgeFacts.

Section InsertFacts.
Context {T : Type} `{NamedTile T}.
Implicit Types (c : Cache.t T).

Lemma insert_one_ids c x id :
  id ∈ Cache.ids (Cache.insert_one c x) ↔ id = tile_id x ∨ id ∈ Cache.ids c.
Proof.
  unfold Cache.ids, Cache.insert_one. cbn [Cache.m_data].
  rewrite map_app. cbn [map]. rewrite elem_of_app, list_elem_of_singleton.
  map_as_fmap. rewrite !list_elem_of_fmap. split.
  - intros [(o & -> & Ho)| ->]; [|now left].
    apply list_elem_of_filter in Ho as [_ Ho]. right. eauto.
  - intros [->|(o & -> & Ho)]; [now right|].
    destruct (decide (tile_id (Cache.data o) = tile_id x)) as [Heq|Hne]; [now right|].
    left. exists o. split; [reflexivity|]. now apply list_elem_of_filter.
Qed.

Lemma insert_ids xs c id :
  id ∈ Cache.ids (Cache.insert xs c) ↔ id ∈ map tile_id xs ∨ id ∈ Cache.ids c.
Proof.
  unfold Cache.insert. revert c. induction xs as [|x xs IH]; intros c; cbn.
  - rewrite elem_of_nil. tauto.
  - rewrite IH, insert_one_ids, elem_of_cons. tauto.
Qed.

Lemma insert_capacity xs c :
  Cache.m_capacity (Cache.insert xs c) = Cache.m_capacity c.
Proof.
  unfold Cache.insert. revert c. induction xs as [|x xs IH]; intros c; cbn; [reflexivity|].
  now rewrite IH.
Qed.

End InsertFacts.

(** ** The RAM purge pass *)

Section RamPurgeFacts.
Context `{Ext : Externals}.
Implicit Types (s : Scheduler).

Lemma threshold_is_floor_spec n L0 :
  threshold_is_floor L0 n = true →
  ∀ L, L0 ≤ L < L0 + Z.of_nat n → purge_threshold L = Some (11 * L / 10).
Proof.
  revert L0. induction n as [|n IH]; intros L0 Hall L HL; [lia|].
  cbn [threshold_is_floor] in Hall. apply andb_prop in Hall as [Hhere Hrest].
  destruct (decide (L = L0)) as [->|Hne].
  - exact (bool_decide_eq_true_1 _ Hhere).
  - apply (IH (L0 + 1) Hrest). lia.
Qed.

(** X10.  Up to a limit of 65535 quads the single-precision threshold is the
    integer part of 1.1 times the limit. *)
Lemma purge_threshold_small L :
  0 ≤ L < 65536 → purge_threshold L = Some (11 * L / 10).
Proof.
  intros HL.
  assert (threshold_is_floor 0 (Z.to_nat 65536) = true) as Hall
    by (vm_compute; reflexivity).
  apply (threshold_is_floor_spec _ 0 Hall L).
  rewrite Z2Nat.id by lia. lia.
Qed.

(** C7, amended: with [T] the value of [unsigned(float(limit) * 1.1f)],
    that is the single-precision product truncated to an integer, the
    purge pass leaves the scheduler untouched when the RAM cache holds
    fewer than [T] entries; otherwise it sets the useful flag of every
    entry to the refinement predicate on the entry's id and then purges
    the RAM cache. *)
Theorem purge_ram_cache_threshold s T :
  purge_threshold (m_ram_quad_limit s) = Some T →
  let n := Cache.n_cached_objects (m_ram_cache s) in
  let visited :=
    Cache.visit_pure (λ quad, should_refine s (TileQuad.id quad)) (m_ram_cache s) in
  (n < T → purge_ram_cache s = Some s)
  ∧ (T ≤ n → purge_ram_cache s = Some (with_ram_cache (Cache.purge visited).1 s))
  ∧ Cache.m_data visited
    = map (λ o, {| Cache.data := Cache.data o;
                   Cache.useful := should_refine s (TileQuad.id (Cache.data o)) |})
          (Cache.m_data (m_ram_cache s)).
Proof.
  intros HT. cbn zeta. unfold purge_ram_cache. rewrite HT. cbn.
  repeat split.
  - intros Hlt. apply Z.ltb_lt in Hlt. now rewrite Hlt.
  - intros Hge. apply Z.ltb_ge in Hge. now rewrite Hge.
  - exact (visit_pure_data (λ quad, should_refine s (TileQuad.id quad)) (m_ram_cache s)).
Qed.

End RamPurgeFacts.

(** ** Two update passes in a row, within capacity *)

Section IdempotenceFacts.
Context `{Ext : Externals}.
Implicit Types (s : Scheduler).

Lemma gpu_cached_before_purge_capacity s :
  Cache.m_capacity (gpu_cached_before_purge s) = Cache.m_capacity (m_gpu_cached s).
Proof.
  unfold gpu_cached_before_purge. now rewrite visit_pure_capacity, insert_capacity.
Qed.

(** A RAM quad the predicate refines has its id in the shadow cache
    when [purge] runs, on a useful entry. *)
Lemma wanted_before_purge s quad :
  quad ∈ map Cache.data (Cache.m_data (m_ram_cache s)) →
  should_refine s (TileQuad.id quad) = true →
  ∃ o, o ∈ Cache.m_data (gpu_cached_before_purge s)
       ∧ Cache.useful o = true
       ∧ tile_id (Cache.data o) = TileQuad.id quad.
Proof.
  intros Hq Hr.
  assert (TileQuad.id quad
            ∈ Cache.ids (Cache.insert
                           (map (λ q, {| GpuCacheInfo.id := GpuTileQuad.id q |})
                                (new_gpu_quads s))
                           (m_gpu_cached s))) as Hid.
  { apply insert_ids.
    destruct (Cache.contains (TileQuad.id quad) (m_gpu_cached s)) eqn:Hc.
    - right. now apply contains_spec.
    - left. pose proof (new_gpu_quads_intro s quad Hq Hr Hc) as Hnew.
      rewrite map_map. cbn. map_as_fmap.
      apply (list_elem_of_fmap_2 GpuTileQuad.id) in Hnew. exact Hnew. }
  unfold Cache.ids in Hid. map_as_fmap.
  apply list_elem_of_fmap in Hid as (o & Hido & Ho).
  exists {| Cache.data := Cache.data o;
            Cache.useful := should_refine s (GpuCacheInfo.id (Cache.data o)) |}.
  unfold gpu_cached_before_purge. rewrite visit_pure_data. cbn.
  split; [|split].
  - map_as_fmap.
    exact (list_elem_of_fmap_2
             (λ o : Cache.CacheObject GpuCacheInfo.t,
                {| Cache.data := Cache.data o;
                   Cache.useful := should_refine s (GpuCacheInfo.id (Cache.data o)) |})
             _ o Ho).
  - change (GpuCacheInfo.id (Cache.data o)) with (tile_id (Cache.data o)).
    now rewrite <- Hido.
  - now rewrite Hido.
Qed.

(** X6.  When the shadow-cache entries wanted in the first pass, the freshly
    promoted ones included, fit in the GPU limit, a second update pass run
    right after the first has nothing to promote and nothing to evict. *)
Lemma second_update_pass_within_capacity s :
  0 ≤ Cache.m_capacity (m_gpu_cached s) →
  gpu_demand s ≤ Cache.m_capacity (m_gpu_cached s) →
  (update_gpu_quads (update_gpu_quads s).1).2 = gpu_quads_updated [] [].
Proof.
  intros Hcap Hfit. unfold gpu_demand in Hfit.
  rewrite <- gpu_cached_before_purge_capacity in Hcap, Hfit.
  destruct (purge_keeps_useful (gpu_cached_before_purge s) Hcap Hfit)
    as (Hsize & Hcap' & Hkept).
  set (s1 := (update_gpu_quads s).1).
  assert (new_gpu_quads s1 = []) as Hnew.
  { rewrite new_gpu_quads_spec.
    match goal with
    | |- map _ ?l = [] => assert (l = []) as ->; [|reflexivity]
    end.
    apply elem_of_nil_inv. intros quad Hquad.
    apply list_elem_of_filter in Hquad as [[Hr Hc] Hquad].
    unfold s1 in Hr, Hc, Hquad.
    rewrite update_gpu_quads_should_refine in Hr.
    rewrite update_gpu_quads_gpu in Hc.
    rewrite update_gpu_quads_ram in Hquad.
    rewrite (visit_data (promote s) (λ q, should_refine s (TileQuad.id q))
               (m_ram_cache s) [] (promote_flag s)) in Hquad.
    change (Cache.data <$> ?l) with (map Cache.data l) in Hquad.
    rewrite map_map in Hquad. cbn in Hquad.
    destruct (wanted_before_purge s quad Hquad Hr) as (o & Ho & Hu & Hid).
    apply not_true_iff_false in Hc. apply Hc, contains_spec.
    unfold Cache.ids. rewrite <- Hid. map_as_fmap.
    apply (list_elem_of_fmap_2 (λ o, tile_id (Cache.data o))). auto. }
  assert (Cache.purge (gpu_cached_before_purge s1)
          = (gpu_cached_before_purge s1, [])) as Hpurge.
  { apply purge_within_capacity.
    unfold gpu_cached_before_purge at 1. unfold Cache.n_cached_objects.
    rewrite visit_pure_data, length_map, Hnew. cbn [map Cache.insert fold_left].
    rewrite gpu_cached_before_purge_capacity.
    unfold s1. rewrite update_gpu_quads_gpu, Hcap'. exact Hsize. }
  rewrite update_gpu_quads_stages. cbn [snd].
  unfold superfluous_ids. rewrite Hpurge, Hnew. cbn.
  now rewrite elements_empty.
Qed.

End IdempotenceFacts.

(** ** A pass that leaves the shadow cache as it found it *)

Section SublistFacts.
Context {A : Type}.
Implicit Types (l k : list A).

Lemma sublist_same_length l k :
  l `sublist_of` k → length l = length k → l = k.
Proof.
  induction 1 as [|x l k Hs IH|x l k Hs IH]; cbn; intros Hlen.
  - reflexivity.
  - f_equal. apply IH. lia.
  - apply sublist_length in Hs. lia.
Qed.

Lemma filter_all (P : A → Prop) `{∀ x, Decision (P x)} l :
  (∀ x, x ∈ l → P x) → filter P l = l.
Proof.
  induction l as [|x l IH]; intros Hall; [reflexivity|].
  rewrite filter_cons_True by (apply Hall; left).
  f_equal. apply IH. intros y Hy. apply Hall. now right.
Qed.

End SublistFacts.

Section EvictionFacts.
Context {T : Type} `{NamedTile T}.
Implicit Types (c : Cache.t T) (os : list (Cache.CacheObject T))
               (p : Cache.CacheObject T → bool).

Lemma evict_where_sublist p k os : (Cache.evict_where p k os).1 `sublist_of` os.
Proof.
  revert k. induction os as [|o os IH]; intros k; cbn; [constructor|].
  destruct k as [|k]; [reflexivity|].
  destruct (p o).
  - specialize (IH k). destruct (Cache.evict_where p k os). cbn in *.
    now apply sublist_cons.
  - specialize (IH (Datatypes.S k)).
    destruct (Cache.evict_where p (Datatypes.S k) os). cbn in *.
    now apply sublist_skip.
Qed.

Lemma evict_where_perm p k os :
  os ≡ₚ (Cache.evict_where p k os).1 ++ (Cache.evict_where p k os).2.
Proof.
  revert k. induction os as [|o os IH]; intros k; cbn; [constructor|].
  destruct k as [|k]; cbn; [now rewrite app_nil_r|].
  destruct (p o).
  - specialize (IH k). destruct (Cache.evict_where p k os) as [kept removed].
    cbn in *. rewrite IH at 1. apply Permutation_middle.
  - specialize (IH (Datatypes.S k)).
    destruct (Cache.evict_where p (Datatypes.S k) os) as [kept removed].
    cbn in *. now constructor.
Qed.

Lemma purge_sublist c :
  Cache.m_data (Cache.purge c).1 `sublist_of` Cache.m_data c.
Proof.
  unfold Cache.purge.
  set (excess := (length (Cache.m_data c) - Z.to_nat (Cache.m_capacity c))%nat).
  pose proof (evict_where_sublist (λ o, negb (Cache.useful o)) excess (Cache.m_data c)) as H1.
  destruct (Cache.evict_where _ excess (Cache.m_data c)) as [kept1 removed1].
  pose proof (evict_where_sublist Cache.useful (excess - length removed1) kept1) as H2.
  destruct (Cache.evict_where _ _ kept1) as [kept2 removed2].
  cbn in *. now transitivity kept1.
Qed.

Lemma purge_capacity c : Cache.m_capacity (Cache.purge c).1 = Cache.m_capacity c.
Proof.
  unfold Cache.purge.
  destruct (Cache.evict_where _ _ (Cache.m_data c)) as [kept1 removed1].
  now destruct (Cache.evict_where _ _ kept1).
Qed.

(** What [purge] keeps and what it returns make up what was there. *)
Lemma purge_ids_perm c :
  Cache.ids c ≡ₚ Cache.ids (Cache.purge c).1 ++ map tile_id (Cache.purge c).2.
Proof.
  unfold Cache.purge, Cache.ids.
  set (excess := (length (Cache.m_data c) - Z.to_nat (Cache.m_capacity c))%nat).
  pose proof (evict_where_perm (λ o, negb (Cache.useful o)) excess (Cache.m_data c)) as H1.
  destruct (Cache.evict_where _ excess (Cache.m_data c)) as [kept1 removed1].
  pose proof (evict_where_perm Cache.useful (excess - length removed1) kept1) as H2.
  destruct (Cache.evict_where _ _ kept1) as [kept2 removed2].
  cbn in *. rewrite map_map, <- map_app. map_as_fmap.
  apply fmap_Permutation.
  rewrite H1, H2, <- app_assoc.
  apply Permutation_app_head, Permutation_app_comm.
Qed.

(** Inserting values with fresh, distinct ids appends them in order. *)
Lemma insert_fresh xs c :
  NoDup (map tile_id xs) →
  (∀ x, x ∈ xs → tile_id x ∉ Cache.ids c) →
  Cache.m_data (Cache.insert xs c)
  = Cache.m_data c ++ map (λ x, {| Cache.data := x; Cache.useful := true |}) xs.
Proof.
  unfold Cache.insert. revert c. induction xs as [|x xs IH]; intros c Hnd Hfresh; cbn.
  - now rewrite app_nil_r.
  - cbn in Hnd. apply NoDup_cons in Hnd as [Hx Hnd].
    rewrite IH; [| exact Hnd |].
    + unfold Cache.insert_one. cbn [Cache.m_data].
      rewrite filter_all, <- app_assoc; [reflexivity|].
      intros o Ho Heq. apply (Hfresh x); [now left|].
      unfold Cache.ids. rewrite <- Heq. map_as_fmap.
      now apply (list_elem_of_fmap_2 (λ o, tile_id (Cache.data o))).
    + intros x' Hx' Hin. apply insert_one_ids in Hin as [Heq|Hin].
      * apply Hx. rewrite <- Heq. map_as_fmap. now apply list_elem_of_fmap_2.
      * apply (Hfresh x'); [now right|exact Hin].
Qed.

End EvictionFacts.

Section FixpointFacts.
Context `{Ext : Externals}.

Lemma cache_eq {T : Type} (c c' : Cache.t T) :
  Cache.m_data c = Cache.m_data c' → Cache.m_capacity c = Cache.m_capacity c' → c = c'.
Proof. destruct c, c'. cbn. now intros -> ->. Qed.

Lemma make_gpu_quad_update (s : Scheduler) :
  make_gpu_quad (update_gpu_quads s).1 = make_gpu_quad s.
Proof. rewrite update_gpu_quads_stages. reflexivity. Qed.

(** With distinct ids in the vector and exactly those ids in the set,
    [erase_superfluous] empties both. *)
Lemma erase_superfluous_all (quads : list GpuTileQuad.t) :
  NoDup (map GpuTileQuad.id quads) →
  erase_superfluous quads (list_to_set (map GpuTileQuad.id quads)) = ([], ∅).
Proof.
  induction quads as [|q quads IH]; intros Hnd; [reflexivity|].
  cbn [map] in *. apply NoDup_cons in Hnd as [Hq Hnd].
  cbn [erase_superfluous]. rewrite list_to_set_cons.
  destruct (decide _) as [_|Hn]; [|set_solver].
  rewrite <- (IH Hnd). f_equal.
  apply (not_elem_of_list_to_set (C := gset tile.Id)) in Hq. set_solver.
Qed.

(** The shared assumptions: the ids of the RAM cache are distinct, and
    the pass hands the shadow cache back with the ids it found. *)
Variable s : Scheduler.
Hypothesis ram_distinct : NoDup (Cache.ids (m_ram_cache s)).
Hypothesis shadow_same :
  Cache.ids (m_gpu_cached (update_gpu_quads s).1) = Cache.ids (m_gpu_cached s).

Let infos : list GpuCacheInfo.t :=
  map (λ q, {| GpuCacheInfo.id := GpuTileQuad.id q |}) (new_gpu_quads s).
Let flagged (o : Cache.CacheObject GpuCacheInfo.t) : Cache.CacheObject GpuCacheInfo.t :=
  {| Cache.data := Cache.data o;
     Cache.useful := should_refine s (GpuCacheInfo.id (Cache.data o)) |}.
Let fresh (x : GpuCacheInfo.t) : Cache.CacheObject GpuCacheInfo.t :=
  {| Cache.data := x; Cache.useful := true |}.

Lemma infos_ids : map tile_id infos = map GpuTileQuad.id (new_gpu_quads s).
Proof. unfold infos. now rewrite map_map. Qed.

Lemma infos_distinct : NoDup (map tile_id infos).
Proof. rewrite infos_ids. now apply new_gpu_quads_NoDup. Qed.

Lemma infos_fresh x : x ∈ infos → tile_id x ∉ Cache.ids (m_gpu_cached s).
Proof.
  unfold infos. map_as_fmap. intros (q & -> & Hq)%list_elem_of_fmap.
  apply new_gpu_quads_origin in Hq as (quad & _ & _ & Hc & ->).
  intros Hin. apply contains_spec in Hin. cbn in Hin. congruence.
Qed.

Lemma before_purge_data :
  Cache.m_data (gpu_cached_before_purge s)
  = map flagged (Cache.m_data (m_gpu_cached s)) ++ map flagged (map fresh infos).
Proof.
  unfold gpu_cached_before_purge. rewrite visit_pure_data.
  fold infos. rewrite (insert_fresh infos _ infos_distinct infos_fresh).
  now rewrite map_app.
Qed.

Lemma kept_is_old_part :
  Cache.m_data (m_gpu_cached (update_gpu_quads s).1)
  = map flagged (Cache.m_data (m_gpu_cached s)).
Proof.
  pose proof (purge_sublist (gpu_cached_before_purge s)) as Hsub.
  rewrite <- update_gpu_quads_gpu, before_purge_data in Hsub.
  apply sublist_app_r in Hsub as (l1 & l2 & Hkept & Hl1 & Hl2).
  assert (l2 = []) as ->.
  { destruct l2 as [|o l2]; [reflexivity|exfalso].
    assert (tile_id (Cache.data o) ∈ Cache.ids (m_gpu_cached s)) as Hold.
    { rewrite <- shadow_same. unfold Cache.ids. rewrite Hkept. map_as_fmap.
      apply (list_elem_of_fmap_2 (λ o, tile_id (Cache.data o))).
      apply elem_of_app. right. now left. }
    assert (o ∈ map flagged (map fresh infos)) as Hnew.
    { eapply elem_of_sublist; [|exact Hl2]. now left. }
    rewrite map_map in Hnew. map_as_fmap.
    apply list_elem_of_fmap in Hnew as (x & -> & Hx).
    now apply (infos_fresh x Hx). }
  rewrite app_nil_r in Hkept. rewrite Hkept.
  apply sublist_same_length; [exact Hl1|].
  rewrite length_map.
  apply (f_equal length) in shadow_same. unfold Cache.ids in shadow_same.
  rewrite !length_map, Hkept in shadow_same. exact shadow_same.
Qed.

Lemma superfluous_ids_are_promoted :
  superfluous_ids s = list_to_set (map GpuTileQuad.id (new_gpu_quads s)).
Proof.
  unfold superfluous_ids.
  change (map GpuCacheInfo.id ?l) with (map tile_id l).
  apply list_to_set_perm_L.
  pose proof (purge_ids_perm (gpu_cached_before_purge s)) as Hperm.
  rewrite <- update_gpu_quads_gpu in Hperm at 1.
  rewrite shadow_same in Hperm.
  unfold Cache.ids in Hperm at 1. rewrite before_purge_data in Hperm.
  rewrite map_app, !map_map in Hperm. cbn in Hperm.
  change (map (λ x, tile_id (Cache.data x)) (Cache.m_data (m_gpu_cached s)))
    with (Cache.ids (m_gpu_cached s)) in Hperm.
  apply Permutation_app_inv_l in Hperm.
  rewrite <- Hperm, <- infos_ids. reflexivity.
Qed.

Lemma new_gpu_quads_again : new_gpu_quads (update_gpu_quads s).1 = new_gpu_quads s.
Proof.
  rewrite !new_gpu_quads_spec, make_gpu_quad_update. f_equal.
  rewrite update_gpu_quads_ram.
  rewrite (visit_data (promote s) (λ q, should_refine s (TileQuad.id q))
             (m_ram_cache s) [] (promote_flag s)).
  rewrite map_map. cbn.
  apply list_filter_iff. intros quad.
  rewrite update_gpu_quads_should_refine.
  unfold Cache.contains. now rewrite shadow_same.
Qed.

Lemma before_purge_again :
  gpu_cached_before_purge (update_gpu_quads s).1 = gpu_cached_before_purge s.
Proof.
  apply cache_eq.
  - rewrite before_purge_data.
    unfold gpu_cached_before_purge at 1. rewrite visit_pure_data.
    rewrite new_gpu_quads_again, update_gpu_quads_should_refine. fold infos.
    rewrite insert_fresh; [|exact infos_distinct|].
    + rewrite kept_is_old_part, map_app, map_map. reflexivity.
    + intros x Hx. rewrite shadow_same. now apply infos_fresh.
  - rewrite !gpu_cached_before_purge_capacity, update_gpu_quads_gpu.
    now rewrite purge_capacity, gpu_cached_before_purge_capacity.
Qed.

Lemma second_pass_signal :
  (update_gpu_quads (update_gpu_quads s).1).2 = gpu_quads_updated [] [].
Proof.
  rewrite update_gpu_quads_stages. cbn [snd].
  assert (superfluous_ids (update_gpu_quads s).1 = superfluous_ids s) as ->.
  { unfold superfluous_ids. now rewrite before_purge_again. }
  rewrite new_gpu_quads_again, superfluous_ids_are_promoted.
  rewrite erase_superfluous_all by now apply new_gpu_quads_NoDup.
  cbn. now rewrite elements_empty.
Qed.

End FixpointFacts.

(** A pass that hands the shadow cache back with the ids it found is
    followed by a pass that emits two empty lists; the camera and the
    quads of the RAM cache are never touched by a pass. *)
Lemma settled_update_pass_emits_nothing `{Ext : Externals} (s : Scheduler) :
  NoDup (Cache.ids (m_ram_cache s)) →
  Cache.ids (m_gpu_cached (update_gpu_quads s).1) = Cache.ids (m_gpu_cached s) →
  m_current_camera (update_gpu_quads s).1 = m_current_camera s
  ∧ map Cache.data (Cache.m_data (m_ram_cache (update_gpu_quads s).1))
    = map Cache.data (Cache.m_data (m_ram_cache s))
  ∧ (update_gpu_quads (update_gpu_quads s).1).2 = gpu_quads_updated [] [].
Proof.
  intros Hnd Hsame. split; [|split].
  - rewrite update_gpu_quads_stages. reflexivity.
  - rewrite update_gpu_quads_ram.
    rewrite (visit_data (promote s) (λ q, should_refine s (TileQuad.id q))
               (m_ram_cache s) [] (promote_flag s)).
    now rewrite map_map.
  - exact (second_pass_signal s Hnd Hsame).
Qed.

(** ** Two passes in a row *)

Section PurgeSizeFacts.
Context {T : Type} `{NamedTile T}.
Implicit Types (c : Cache.t T) (os : list (Cache.CacheObject T))
               (p : Cache.CacheObject T → bool).




End PurgeSizeFacts.

Section SecondPassFacts.
Context `{Ext : Externals}.
Implicit Types (s : Scheduler).



(** Room for the wanted entries is enough: then no wanted quad of the
    RAM cache is lost in the first pass. *)
Lemma wanted_quads_stay_resident s quad :
  0 ≤ Cache.m_capacity (m_gpu_cached s) →
  gpu_demand s ≤ Cache.m_capacity (m_gpu_cached s) →
  quad ∈ map Cache.data (Cache.m_data (m_ram_cache s)) →
  should_refine s (TileQuad.id quad) = true →
  TileQuad.id quad ∈ Cache.ids (m_gpu_cached (update_gpu_quads s).1).
Proof.
  intros Hcap Hfit Hq Hr. unfold gpu_demand in Hfit.
  rewrite <- gpu_cached_before_purge_capacity in Hcap, Hfit.
  destruct (purge_keeps_useful (gpu_cached_before_purge s) Hcap Hfit)
    as (_ & _ & Hkept).
  destruct (wanted_before_purge s quad Hq Hr) as (o & Ho & Hu & Hid).
  rewrite update_gpu_quads_gpu. unfold Cache.ids. rewrite <- Hid. map_as_fmap.
  apply (list_elem_of_fmap_2 (λ o, tile_id (Cache.data o))). auto.
Qed.

(** A wanted quad of the RAM cache that the first pass did not leave in
    the shadow cache is promoted again by the second. *)
Lemma lost_quad_promoted_again s quad :
  quad ∈ map Cache.data (Cache.m_data (m_ram_cache s)) →
  should_refine s (TileQuad.id quad) = true →
  TileQuad.id quad ∉ Cache.ids (m_gpu_cached (update_gpu_quads s).1) →
  make_gpu_quad s quad ∈ new_gpu_quads (update_gpu_quads s).1.
Proof.
  intros Hq Hr Hlost. rewrite <- make_gpu_quad_update.
  apply new_gpu_quads_intro.
  - rewrite update_gpu_quads_ram.
    rewrite (visit_data (promote s) (λ q, should_refine s (TileQuad.id q))
               (m_ram_cache s) [] (promote_flag s)).
    now rewrite map_map.
  - now rewrite update_gpu_quads_should_refine.
  - apply not_true_iff_false. intros Hc. now apply contains_spec in Hc.
Qed.

End SecondPassFacts.


(** ** Concrete runs *)

Section Runs.
Import Sample.

(** *** Fetch requests *)

(** Camera level 2 refines the root and its four children; the RAM
    cache already holds the quad of child (1,(0,0)). *)
Lemma send_quad_requests_run :
  let s := scheduler 2 10 10 [quad id1 None None] idle in
  let W := [ id0; id1; id2;
             {| tile.zoom_level := 1; tile.coords := (0, 1) |};
             {| tile.zoom_level := 1; tile.coords := (1, 1) |} ] in
  tiles_for_current_camera_position 3 s = Some W
  ∧ (∃ ids,
       send_quad_requests 3 s = Some (quads_requested ids)
       ∧ ids = filter (λ id, ¬ Cache.contains id (m_ram_cache s)) W
       ∧ ∀ id, id ∈ ids ↔ id ∈ W ∧ id ∉ Cache.ids (m_ram_cache s))
  ∧ send_quad_requests 3 s
    = Some (quads_requested
              [ id0; id2;
                {| tile.zoom_level := 1; tile.coords := (0, 1) |};
                {| tile.zoom_level := 1; tile.coords := (1, 1) |} ]).
Proof.
  cbn zeta.
  set (s := scheduler 2 10 10 [quad id1 None None] idle).
  assert (tiles_for_current_camera_position 3 s
          = Some [ id0; id1; id2;
                   {| tile.zoom_level := 1; tile.coords := (0, 1) |};
                   {| tile.zoom_level := 1; tile.coords := (1, 1) |} ]) as HW
    by (vm_compute; reflexivity).
  split; [exact HW|]. split; [|vm_compute; reflexivity].
  exact (proj1 (send_quad_requests_working_set_minus_ram s) 3%nat _ HW).
Defined.

(** *** Delta reconciliation under capacity pressure *)

(** GPU limit 1 and two wanted quads: the first pass promotes both and
    evicts one of them at once. *)
Lemma update_gpu_quads_delta_run :
  let s := scheduler 5 10 1 [quad id0 None None; quad id1 None None] idle in
  NoDup (Cache.ids (m_ram_cache s))
  ∧ ∃ added removed,
      (update_gpu_quads s).2 = gpu_quads_updated added removed
      ∧ (∀ q, q ∈ added → GpuTileQuad.id q ∉ removed)
      ∧ (∀ q, q ∈ new_gpu_quads s → GpuTileQuad.id q ∈ superfluous_ids s →
              GpuTileQuad.id q ∉ removed)
      ∧ (NoDup (Cache.ids (m_ram_cache s)) →
         ∀ q, q ∈ new_gpu_quads s → GpuTileQuad.id q ∈ superfluous_ids s →
              GpuTileQuad.id q ∉ map GpuTileQuad.id added).
Proof.
  cbn zeta. split.
  - compute_done.
  - apply update_gpu_quads_delta_disjoint.
Defined.

(** *** Two passes in a row *)


Lemma second_update_pass_within_capacity_run :
  let s := scheduler 5 10 2 [quad id0 None None; quad id1 None None] idle in
  0 ≤ Cache.m_capacity (m_gpu_cached s)
  ∧ gpu_demand s ≤ Cache.m_capacity (m_gpu_cached s)
  ∧ (update_gpu_quads (update_gpu_quads s).1).2 = gpu_quads_updated [] [].
Proof.
  cbn zeta.
  set (s := scheduler 5 10 2 [quad id0 None None; quad id1 None None] idle).
  assert (0 ≤ Cache.m_capacity (m_gpu_cached s)) as Hcap by (cbn; lia).
  assert (gpu_demand s ≤ Cache.m_capacity (m_gpu_cached s)) as Hfit
    by (vm_compute; discriminate).
  split; [exact Hcap|]. split; [exact Hfit|].
  exact (second_update_pass_within_capacity s Hcap Hfit).
Defined.


(** *** Payloads *)

(** C5, as stated, fails: [garbage] is not decodable (the decoder
    answers the null image for it), and the promoted tile carries that
    null image, not the image of the default blob. *)
Lemma malformed_ortho_is_not_substituted :
  let s := scheduler 5 10 10 [quad id1 (Some garbage) None] idle in
  toQImage garbage = []
  ∧ toQImage (m_default_ortho_tile s) = [Byte.xff; Byte.xff]
  ∧ (update_gpu_quads s).2
    = gpu_quads_updated [make_gpu_quad s (quad id1 (Some garbage) None)] []
  ∧ GpuTileQuad.tiles (make_gpu_quad s (quad id1 (Some garbage) None)) !! 0%nat
    = Some (Some {| GpuTile.id := id1; GpuTile.bounds := id1;
                    GpuTile.ortho := []; GpuTile.height := [0; 0] |})
  ∧ GpuTileQuad.tiles (make_gpu_quad s (quad id1 (Some garbage) None)) !! 0%nat
    ≠ GpuTileQuad.tiles (make_gpu_quad s (quad id1 None None)) !! 0%nat.
Proof.
  cbn zeta. repeat split; try (vm_compute; reflexivity).
  vm_compute. discriminate.
Qed.

Lemma promoted_tile_present_payload_run :
  let s := scheduler 5 10 10 [quad id1 (Some garbage) (Some pixels)] idle in
  let q := make_gpu_quad s (quad id1 (Some garbage) (Some pixels)) in
  q ∈ new_gpu_quads s
  ∧ ∃ quad,
      quad ∈ map Cache.data (Cache.m_data (m_ram_cache s))
      ∧ q = make_gpu_quad s quad
      ∧ ∀ (i : nat) t,
          TileQuad.tiles quad !! i = Some t →
          (i < Z.to_nat (TileQuad.n_tiles quad))%nat → (i < 4)%nat →
          ∃ g, GpuTileQuad.tiles q !! i = Some (Some g)
               ∧ (∀ bytes, LayeredTile.ortho t = Some bytes →
                           GpuTile.ortho g = toQImage bytes)
               ∧ (∀ bytes, LayeredTile.height t = Some bytes →
                           GpuTile.height g = qImage2uint16Raster (toQImage bytes)).
Proof.
  cbn zeta.
  assert (make_gpu_quad (scheduler 5 10 10 [quad id1 (Some garbage) (Some pixels)] idle)
            (quad id1 (Some garbage) (Some pixels))
          ∈ new_gpu_quads (scheduler 5 10 10 [quad id1 (Some garbage) (Some pixels)] idle))
    as Hin by (vm_compute; left).
  split; [exact Hin|].
  exact (promoted_tile_present_payload _ _ Hin).
Defined.

Lemma promoted_tile_missing_payload_run :
  let s := scheduler 5 10 10 [quad id1 None (Some pixels)] idle in
  let q := make_gpu_quad s (quad id1 None (Some pixels)) in
  q ∈ new_gpu_quads s
  ∧ (∃ added removed, (update_gpu_quads s).2 = gpu_quads_updated added removed)
  ∧ ∃ quad,
      quad ∈ map Cache.data (Cache.m_data (m_ram_cache s))
      ∧ q = make_gpu_quad s quad
      ∧ ∀ (i : nat) t,
          TileQuad.tiles quad !! i = Some t →
          (i < Z.to_nat (TileQuad.n_tiles quad))%nat → (i < 4)%nat →
          ∃ g, GpuTileQuad.tiles q !! i = Some (Some g)
               ∧ (LayeredTile.ortho t = None →
                  GpuTile.ortho g = toQImage (m_default_ortho_tile s))
               ∧ (LayeredTile.height t = None →
                  GpuTile.height g
                  = qImage2uint16Raster (toQImage (m_default_height_tile s)))
               ∧ (∀ ortho,
                    GpuTile.height g
                    = GpuTile.height
                        (make_gpu_tile s
                           {| LayeredTile.id := LayeredTile.id t;
                              LayeredTile.ortho := ortho;
                              LayeredTile.height := LayeredTile.height t |})).
Proof.
  cbn zeta.
  assert (make_gpu_quad (scheduler 5 10 10 [quad id1 None (Some pixels)] idle)
            (quad id1 None (Some pixels))
          ∈ new_gpu_quads (scheduler 5 10 10 [quad id1 None (Some pixels)] idle))
    as Hin by (vm_compute; left).
  split; [exact Hin|].
  exact (promoted_tile_missing_payload _ _ Hin).
Defined.

(** The tile that run produces: default ortho image, height raster of
    the delivered bytes. *)
Example promoted_tile_missing_payload_value :
  let s := scheduler 5 10 10 [quad id1 None (Some pixels)] idle in
  GpuTileQuad.tiles (make_gpu_quad s (quad id1 None (Some pixels))) !! 0%nat
  = Some (Some {| GpuTile.id := id1; GpuTile.bounds := id1;
                  GpuTile.ortho := [Byte.xff; Byte.xff];
                  GpuTile.height := [16; 32] |}).
Proof. vm_compute. reflexivity. Qed.

(** *** The RAM purge pass *)

(** C7, as stated, fails: with a limit of 1 and one cached quad the
    occupancy is below 1.1 times the limit, yet the threshold
    [unsigned(1.1f)] is 1, the pass runs, and the visit clears the
    useful flag of the entry. *)
Lemma purge_ram_cache_runs_below_slack :
  let s := scheduler 0 1 1 [quad id1 None None] idle in
  10 * Cache.n_cached_objects (m_ram_cache s) < 11 * m_ram_quad_limit s
  ∧ purge_threshold (m_ram_quad_limit s) = Some 1
  ∧ purge_ram_cache s ≠ Some s
  ∧ ∃ s', purge_ram_cache s = Some s'
          ∧ map Cache.useful (Cache.m_data (m_ram_cache s)) = [true]
          ∧ map Cache.useful (Cache.m_data (m_ram_cache s')) = [false].
Proof.
  cbn zeta. split; [vm_compute; reflexivity|]. split; [vm_compute; reflexivity|].
  split; [vm_compute; discriminate|].
  eexists. split; [vm_compute; reflexivity|]. split; reflexivity.
Qed.

Lemma purge_ram_cache_threshold_run :
  let s := scheduler 0 10 10 [quad id1 None None; quad id2 None None] idle in
  let n := Cache.n_cached_objects (m_ram_cache s) in
  let visited :=
    Cache.visit_pure (λ quad, should_refine s (TileQuad.id quad)) (m_ram_cache s) in
  purge_threshold (m_ram_quad_limit s) = Some 11
  ∧ (n < 11 → purge_ram_cache s = Some s)
  ∧ (11 ≤ n → purge_ram_cache s = Some (with_ram_cache (Cache.purge visited).1 s))
  ∧ Cache.m_data visited
    = map (λ o, {| Cache.data := Cache.data o;
                   Cache.useful := should_refine s (TileQuad.id (Cache.data o)) |})
          (Cache.m_data (m_ram_cache s)).
Proof.
  cbn zeta.
  set (s := scheduler 0 10 10 [quad id1 None None; quad id2 None None] idle).
  assert (purge_threshold (m_ram_quad_limit s) = Some 11) as HT
    by (vm_compute; reflexivity).
  split; [exact HT|].
  exact (purge_ram_cache_threshold s 11 HT).
Defined.

(** *** Setters *)

(** C4: the purge timer is armed and the update timeout is 100 ms;
    [set_purge_timeout 500] stores 500 and restarts the purge timer with
    100 ms, the update timeout, where 500 ms is called for. *)
Lemma set_purge_timeout_rearms_with_update_timeout :
  let s := scheduler 5 10 10 [] (armed 1000) in
  m_update_timeout s = 100
  ∧ QTimer.isActive (m_purge_timer s) = true
  ∧ ∃ s', set_purge_timeout 500 s = Some s'
          ∧ m_purge_timeout s' = 500
          ∧ QTimer.isActive (m_purge_timer s') = true
          ∧ QTimer.interval (m_purge_timer s') = 100
          ∧ QTimer.interval (m_purge_timer s') ≠ m_purge_timeout s'.
Proof.
  cbn zeta. split; [reflexivity|]. split; [reflexivity|].
  eexists. split; [vm_compute; reflexivity|].
  repeat split. cbn. lia.
Qed.

(** C8, as stated, fails: minus one is a negative argument, and
    [set_permissible_screen_space_error] stores it unchecked. *)
Lemma set_permissible_screen_space_error_takes_negative :
  let s := scheduler 5 10 10 [] idle in
  let minus_one := S754_finite true 8388608 (-23) in
  SFltb minus_one (S754_zero false) = true
  ∧ ∃ s', set_permissible_screen_space_error minus_one s = Some s'
          ∧ m_permissible_screen_space_error s' = minus_one.
Proof.
  cbn zeta. split; [reflexivity|].
  eexists. split; reflexivity.
Qed.

Lemma setters_preconditions_run :
  let s := scheduler 5 10 10 [] idle in
  set_purge_timeout (2 ^ 31) s = None
  ∧ (∃ s', set_purge_timeout 500 s = Some s' ∧ m_purge_timeout s' = 500)
  ∧ ∃ s', set_ram_quad_limit (2 ^ 32 - 1) s = Some s'
          ∧ m_ram_quad_limit s' = 2 ^ 32 - 1.
Proof.
  cbn zeta.
  set (s := scheduler 5 10 10 [] idle).
  destruct (setters_preconditions s) as (Hreject & Hstore & Hram & _).
  split; [apply Hreject; vm_compute; discriminate|].
  split.
  - exists (with_purge_timeout 500 s). split; [reflexivity|reflexivity].
  - destruct (Hram (2 ^ 32 - 1)) as (s' & Hs' & Hlim & _). eauto.
Defined.

(** [set_update_timeout] asserts on the stored timeout, not on its
    argument: a value that does not fit in a signed int goes through. *)
Example set_update_timeout_unchecked_argument :
  let s := scheduler 5 10 10 [] idle in
  ∃ s', set_update_timeout 3000000000 s = Some s'
        ∧ m_update_timeout s' = 3000000000
        ∧ INT_MAX < m_update_timeout s'.
Proof.
  cbn zeta. eexists. split; [vm_compute; reflexivity|].
  split; [reflexivity|]. vm_compute. reflexivity.
Qed.

End Runs.

(** ** Properties of Texture::setParams *)

Section TextureFacts.
Import Texture.

Lemma setParams_stores t mn mg t' :
  setParams t mn mg = Some t' →
  m_min_filter t' = mn ∧ m_mag_filter t' = mg ∧ m_format t' = m_format t.
Proof.
  unfold setParams. intros H.
  repeat case_guard; simplify_eq/=; auto.
Qed.

(** C9, as stated, fails: a magnification filter MipMapLinear on an
    uncompressed RGBA8 texture meets both worded conditions and still
    trips the first assertion. *)
Lemma setParams_mag_mipmap_rejected :
  let t := {| m_target := _2d; m_format := RGBA8; m_id := 1;
              m_min_filter := Nearest; m_mag_filter := Nearest |} in
  r16ui_nearest (m_format t) Nearest MipMapLinear ∧
  mip_uncompressed (m_format t) Nearest MipMapLinear ∧
  setParams t Nearest MipMapLinear = None.
Proof.
  cbn. split; [|split].
  - intros H; discriminate H.
  - intros _ H; discriminate H.
  - reflexivity.
Qed.

(** C9, amended: the assertions of setParams pass exactly when the
    magnification filter is not MipMapLinear, a CompressedRGBA8 texture
    is not given a MipMapLinear minification filter, and an R16UI
    texture is given Nearest for both filters. *)
Theorem setParams_passes_iff (t : Texture) (mn mg : Filter) :
  is_Some (setParams t mn mg) ↔
    mg ≠ MipMapLinear ∧
    (m_format t = CompressedRGBA8 → mn ≠ MipMapLinear) ∧
    (m_format t = R16UI → mn = Nearest ∧ mg = Nearest).
Proof.
  unfold setParams, is_Some.
  destruct (m_format t) eqn:Hf, mn, mg; cbn; split;
    solve
      [ intros [? [=]]
      | intros _; repeat split; intros; congruence
      | intros _; eexists; reflexivity
      | intros (H1 & H2 & H3); exfalso;
        first [ apply H1; reflexivity
              | apply H2; reflexivity
              | destruct H3 as [? ?]; [reflexivity | congruence] ] ].
Qed.

End TextureFacts.

(** * Further properties of the scheduler *)

(** ** Distinct ids in the caches *)

Section DistinctIdsFacts.
Context {T : Type} `{NamedTile T}.
Implicit Types (c : Cache.t T).

Lemma filter_ext_in {A : Type} (P Q : A → Prop)
    `{∀ x, Decision (P x)} `{∀ x, Decision (Q x)} (l : list A) :
  (∀ x, x ∈ l → P x ↔ Q x) → filter P l = filter Q l.
Proof.
  induction l as [|x l IH]; intros Hext; [reflexivity|].
  assert (filter P l = filter Q l) as IHl.
  { apply IH. intros y Hy. apply Hext. now right. }
  destruct (decide (P x)) as [HP|HP].
  - rewrite !filter_cons_True; [now rewrite IHl| |exact HP].
    apply Hext; [now left|exact HP].
  - rewrite !filter_cons_False; [exact IHl| |exact HP].
    intros HQ. apply HP, Hext; [now left|exact HQ].
Qed.

Lemma insert_one_NoDup c x :
  NoDup (Cache.ids c) → NoDup (Cache.ids (Cache.insert_one c x)).
Proof.
  intros Hnd. unfold Cache.ids, Cache.insert_one. cbn [Cache.m_data].
  rewrite map_app. cbn [map]. apply NoDup_app. split; [|split].
  - eapply sublist_NoDup; [exact Hnd|].
    unfold Cache.ids. map_as_fmap. apply fmap_sublist, sublist_filter.
  - intros id Hid ->%list_elem_of_singleton. map_as_fmap.
    apply list_elem_of_fmap in Hid as (o & Heq & Ho).
    apply list_elem_of_filter in Ho as [Hne _]. cbn in Hne, Heq. congruence.
  - apply NoDup_singleton.
Qed.

Lemma insert_NoDup xs c :
  NoDup (Cache.ids c) → NoDup (Cache.ids (Cache.insert xs c)).
Proof.
  unfold Cache.insert. revert c. induction xs as [|x xs IH]; intros c Hnd; cbn.
  - exact Hnd.
  - apply IH, insert_one_NoDup, Hnd.
Qed.

Lemma purge_ids_sublist c :
  Cache.ids (Cache.purge c).1 `sublist_of` Cache.ids c.
Proof. unfold Cache.ids. map_as_fmap. apply fmap_sublist, purge_sublist. Qed.

Lemma purge_NoDup c :
  NoDup (Cache.ids c) → NoDup (Cache.ids (Cache.purge c).1).
Proof. intros Hnd. eapply sublist_NoDup; [exact Hnd|apply purge_ids_sublist]. Qed.

Lemma visit_ids {St} (f : T → St → bool * St) (g : T → bool) c st :
  (∀ x st', (f x st').1 = g x) →
  Cache.ids (Cache.visit f c st).1 = Cache.ids c.
Proof.
  intros Hfg. unfold Cache.ids. rewrite (visit_data f g c st Hfg).
  apply flags_map_ids.
Qed.

(** What [purge] evicts is gone from the cache when the ids were distinct. *)
Lemma purge_evicted_gone c id :
  NoDup (Cache.ids c) →
  id ∈ map tile_id (Cache.purge c).2 → id ∉ Cache.ids (Cache.purge c).1.
Proof.
  intros Hnd Hev Hkept.
  rewrite (purge_ids_perm c) in Hnd.
  apply NoDup_app in Hnd as (_ & Hdisj & _).
  exact (Hdisj id Hkept Hev).
Qed.

Lemma purge_ids_split c id :
  id ∈ Cache.ids c ↔
  id ∈ Cache.ids (Cache.purge c).1 ∨ id ∈ map tile_id (Cache.purge c).2.
Proof. rewrite (purge_ids_perm c) at 1. apply elem_of_app. Qed.

End DistinctIdsFacts.

(** ** The GPU delta *)

Section DeltaFacts.
Context `{Ext : Externals}.
Implicit Types (s : Scheduler) (ids : gset tile.Id) (quads : list GpuTileQuad.t).

Lemma erase_superfluous_ids quads ids :
  (erase_superfluous quads ids).2 = ids ∖ list_to_set (map GpuTileQuad.id quads).
Proof.
  revert ids. induction quads as [|q quads IH]; intros ids; cbn [erase_superfluous map].
  - cbn. set_solver.
  - rewrite list_to_set_cons.
    destruct (decide (GpuTileQuad.id q ∈ ids)) as [Hin|Hin].
    + rewrite IH. set_solver.
    + specialize (IH ids). destruct (erase_superfluous quads ids) as [kept ids'].
      cbn in *. rewrite IH. set_solver.
Qed.

Lemma erase_superfluous_quads quads ids :
  NoDup (map GpuTileQuad.id quads) →
  (erase_superfluous quads ids).1 = filter (λ q, GpuTileQuad.id q ∉ ids) quads.
Proof.
  revert ids. induction quads as [|q quads IH]; intros ids Hnd; [reflexivity|].
  cbn [map] in Hnd. apply NoDup_cons in Hnd as [Hq Hnd].
  cbn [erase_superfluous].
  destruct (decide (GpuTileQuad.id q ∈ ids)) as [Hin|Hin].
  - rewrite filter_cons_False by (intros Hn; exact (Hn Hin)).
    rewrite (IH _ Hnd). apply filter_ext_in. intros q' Hq'.
    assert (GpuTileQuad.id q' ≠ GpuTileQuad.id q) as Hne.
    { intros Heq. apply Hq. rewrite <- Heq. map_as_fmap.
      now apply list_elem_of_fmap_2. }
    set_solver.
  - rewrite filter_cons_True by exact Hin.
    specialize (IH ids Hnd). destruct (erase_superfluous quads ids) as [kept ids'].
    cbn in *. now rewrite IH.
Qed.

(** X1.  The removed list, read off the emitted signal: without repetition,
    exactly the ids [purge] evicted from the shadow cache that do not
    belong to a quad promoted in the same pass. *)
Theorem gpu_delta_removed s :
  ∃ added removed,
    (update_gpu_quads s).2 = gpu_quads_updated added removed
    ∧ NoDup removed
    ∧ ∀ id, id ∈ removed ↔
            id ∈ superfluous_ids s
            ∧ id ∉ map GpuTileQuad.id (new_gpu_quads s).
Proof.
  rewrite update_gpu_quads_stages. cbn [snd].
  eexists _, _. split; [reflexivity|]. split.
  - apply NoDup_elements.
  - intros id. rewrite elem_of_elements, erase_superfluous_ids.
    rewrite elem_of_difference, elem_of_list_to_set. reflexivity.
Qed.

(** X2.  The added list: the promoted quads whose shadow entry survived the
    purge of the same pass, in the order of promotion. *)
Theorem gpu_delta_added s :
  NoDup (Cache.ids (m_ram_cache s)) →
  ∃ added removed,
    (update_gpu_quads s).2 = gpu_quads_updated added removed
    ∧ added = filter (λ q, GpuTileQuad.id q ∉ superfluous_ids s) (new_gpu_quads s)
    ∧ NoDup (map GpuTileQuad.id added).
Proof.
  intros Hnd. rewrite update_gpu_quads_stages. cbn [snd].
  eexists _, _. split; [reflexivity|].
  pose proof (new_gpu_quads_NoDup s Hnd) as HndP.
  rewrite (erase_superfluous_quads _ _ HndP). split; [reflexivity|].
  eapply sublist_NoDup; [exact HndP|].
  map_as_fmap. apply fmap_sublist, sublist_filter.
Qed.

(** X3.  Where an added quad comes from: a quad of the RAM cache with the
    same id, refined by the predicate and absent from the shadow cache
    when the pass began. *)
Theorem gpu_delta_added_origin s added removed q :
  (update_gpu_quads s).2 = gpu_quads_updated added removed →
  q ∈ added →
  ∃ quad,
    quad ∈ map Cache.data (Cache.m_data (m_ram_cache s))
    ∧ q = make_gpu_quad s quad
    ∧ GpuTileQuad.id q = TileQuad.id quad
    ∧ should_refine s (TileQuad.id quad) = true
    ∧ TileQuad.id quad ∉ Cache.ids (m_gpu_cached s).
Proof.
  rewrite update_gpu_quads_stages. cbn [snd]. intros [= <- _] Hq.
  assert (q ∈ new_gpu_quads s) as Hnew.
  { eapply elem_of_sublist; [exact Hq|apply erase_superfluous_kept_sublist]. }
  apply new_gpu_quads_origin in Hnew as (quad & Hin & Hr & Hc & ->).
  exists quad. repeat split; try assumption.
  intros Hid. apply contains_spec in Hid. congruence.
Qed.

Lemma before_purge_ids s id :
  id ∈ Cache.ids (gpu_cached_before_purge s) ↔
  id ∈ map GpuTileQuad.id (new_gpu_quads s) ∨ id ∈ Cache.ids (m_gpu_cached s).
Proof.
  unfold gpu_cached_before_purge. rewrite visit_pure_ids, insert_ids.
  now rewrite map_map.
Qed.

Lemma before_purge_NoDup s :
  NoDup (Cache.ids (m_gpu_cached s)) → NoDup (Cache.ids (gpu_cached_before_purge s)).
Proof.
  intros Hnd. unfold gpu_cached_before_purge. rewrite visit_pure_ids.
  now apply insert_NoDup.
Qed.

Lemma new_gpu_quads_not_cached s id :
  id ∈ map GpuTileQuad.id (new_gpu_quads s) → id ∉ Cache.ids (m_gpu_cached s).
Proof.
  map_as_fmap. intros (q & -> & Hq)%list_elem_of_fmap.
  apply new_gpu_quads_origin in Hq as (quad & _ & _ & Hc & ->).
  intros Hid. apply contains_spec in Hid. cbn in Hid. congruence.
Qed.

Lemma shadow_after_pass s id :
  NoDup (Cache.ids (m_ram_cache s)) →
  NoDup (Cache.ids (m_gpu_cached s)) →
  id ∈ Cache.ids (Cache.purge (gpu_cached_before_purge s)).1 ↔
  (id ∈ Cache.ids (m_gpu_cached s)
   ∧ id ∉ (erase_superfluous (new_gpu_quads s) (superfluous_ids s)).2)
  ∨ id ∈ map GpuTileQuad.id
           (erase_superfluous (new_gpu_quads s) (superfluous_ids s)).1.
Proof.
  intros HndR HndG.
  pose proof (before_purge_NoDup s HndG) as HndB.
  rewrite erase_superfluous_ids.
  rewrite (erase_superfluous_quads _ _ (new_gpu_quads_NoDup s HndR)).
  assert (id ∈ superfluous_ids s ↔
          id ∈ map tile_id (Cache.purge (gpu_cached_before_purge s)).2) as HE.
  { unfold superfluous_ids. now rewrite elem_of_list_to_set. }
  assert (id ∈ map GpuTileQuad.id
                 (filter (λ q, GpuTileQuad.id q ∉ superfluous_ids s) (new_gpu_quads s))
          ↔ id ∈ map GpuTileQuad.id (new_gpu_quads s) ∧ id ∉ superfluous_ids s)
    as HA.
  { map_as_fmap. rewrite !list_elem_of_fmap. split.
    - intros (q & -> & Hq). apply list_elem_of_filter in Hq as [Hne Hq].
      split; [eauto|exact Hne].
    - intros [(q & -> & Hq) Hne]. exists q. split; [reflexivity|].
      now apply list_elem_of_filter. }
  pose proof (purge_ids_split (gpu_cached_before_purge s) id) as Hsplit.
  pose proof (purge_evicted_gone (gpu_cached_before_purge s) id HndB) as Hgone.
  pose proof (before_purge_ids s id) as HB.
  pose proof (new_gpu_quads_not_cached s id) as Hfresh.
  rewrite HA, elem_of_difference, elem_of_list_to_set. tauto.
Qed.

(** X4.  The delta is the change of the shadow cache: after the pass an id is
    in the shadow cache exactly when it was there before and is not
    removed, or belongs to an added quad.  Distinct ids stay distinct. *)
Theorem gpu_delta_is_shadow_change s :
  NoDup (Cache.ids (m_ram_cache s)) →
  NoDup (Cache.ids (m_gpu_cached s)) →
  ∃ added removed,
    (update_gpu_quads s).2 = gpu_quads_updated added removed
    ∧ (∀ id, id ∈ Cache.ids (m_gpu_cached (update_gpu_quads s).1) ↔
             (id ∈ Cache.ids (m_gpu_cached s) ∧ id ∉ removed)
             ∨ id ∈ map GpuTileQuad.id added)
    ∧ NoDup (Cache.ids (m_gpu_cached (update_gpu_quads s).1))
    ∧ NoDup (Cache.ids (m_ram_cache (update_gpu_quads s).1)).
Proof.
  intros HndR HndG.
  rewrite update_gpu_quads_gpu, update_gpu_quads_ram, update_gpu_quads_stages.
  cbn [snd]. eexists _, _. split; [reflexivity|]. split; [|split].
  - intros id. rewrite (shadow_after_pass s id HndR HndG), elem_of_elements.
    reflexivity.
  - apply purge_NoDup. now apply before_purge_NoDup.
  - now rewrite (visit_ids (promote s) _ _ _ (promote_flag s)).
Qed.

End DeltaFacts.

(** ** Arming, debouncing and delivery *)

Section ArmingFacts.
Context `{Ext : Externals}.
Implicit Types (s : Scheduler).

Lemma to_int_small x : x < INT_MAX → to_int x = x.
Proof.
  unfold to_int, INT_MAX. intros Hx.
  destruct (x <? 2 ^ 31) eqn:Hlt; [reflexivity|]. apply Z.ltb_ge in Hlt. lia.
Qed.

Lemma schedule_update_Some s s' :
  schedule_update s = Some s' →
  m_update_timeout s < INT_MAX
  ∧ s' = (if m_enabled s && negb (QTimer.isActive (m_update_timer s))
          then with_update_timer
                 (QTimer.start (to_int (m_update_timeout s)) (m_update_timer s)) s
          else s).
Proof.
  unfold schedule_update. intros Hs.
  destruct (decide (m_update_timeout s < INT_MAX)) as [Hlt|Hge].
  - rewrite option_guard_True in Hs by exact Hlt. cbn in Hs.
    injection Hs as <-. now split.
  - rewrite option_guard_False in Hs by exact Hge. discriminate Hs.
Qed.

Lemma schedule_purge_Some s s' :
  schedule_purge s = Some s' →
  m_purge_timeout s < INT_MAX
  ∧ s' = (if m_enabled s && negb (QTimer.isActive (m_purge_timer s))
          then with_purge_timer
                 (QTimer.start (to_int (m_purge_timeout s)) (m_purge_timer s)) s
          else s).
Proof.
  unfold schedule_purge. intros Hs.
  destruct (decide (m_purge_timeout s < INT_MAX)) as [Hlt|Hge].
  - rewrite option_guard_True in Hs by exact Hlt. cbn in Hs.
    injection Hs as <-. now split.
  - rewrite option_guard_False in Hs by exact Hge. discriminate Hs.
Qed.

Lemma schedule_update_None s :
  schedule_update s = None ↔ INT_MAX ≤ m_update_timeout s.
Proof.
  unfold schedule_update. split.
  - intros Hs. destruct (decide (m_update_timeout s < INT_MAX)) as [Hlt|Hge]; [|lia].
    rewrite option_guard_True in Hs by exact Hlt. discriminate Hs.
  - intros Hge. rewrite option_guard_False by lia. reflexivity.
Qed.

(** X12.  Debouncing: on an enabled scheduler [update_camera] leaves the update
    timer running, started with the update timeout if it was idle, and
    every further [update_camera] only replaces the camera. *)
Theorem update_camera_coalesces s camera s1 :
  m_enabled s = true →
  update_camera camera s = Some s1 →
  QTimer.isActive (m_update_timer s1) = true
  ∧ (QTimer.isActive (m_update_timer s) = false →
     QTimer.interval (m_update_timer s1) = m_update_timeout s)
  ∧ (QTimer.isActive (m_update_timer s) = true →
     m_update_timer s1 = m_update_timer s)
  ∧ ∀ camera2, update_camera camera2 s1 = Some (with_current_camera camera2 s1).
Proof.
  intros Hen Hs1. unfold update_camera in Hs1.
  apply schedule_update_Some in Hs1 as [Hlt ->]. cbn in *. rewrite Hen. cbn.
  destruct (QTimer.isActive (m_update_timer s)) eqn:Hact; cbn.
  - repeat split; try congruence.
    intros camera2. unfold update_camera, schedule_update. cbn.
    rewrite option_guard_True by exact Hlt. cbn. now rewrite Hen, Hact.
  - repeat split; try congruence.
    + intros _. now apply to_int_small.
    + intros camera2. unfold update_camera, schedule_update. cbn.
      rewrite option_guard_True by exact Hlt. cbn. now rewrite Hen.
Qed.

(** X13.  Disabling cancels nothing and arms nothing: [set_enabled(false)]
    leaves both timers as they are, and so does every [update_camera] and
    [receiver_quads] that follows. *)
Theorem disabled_scheduler_arms_nothing s s1 :
  set_enabled false s = Some s1 →
  m_update_timer s1 = m_update_timer s
  ∧ m_purge_timer s1 = m_purge_timer s
  ∧ (∀ camera s2, update_camera camera s1 = Some s2 →
       m_update_timer s2 = m_update_timer s ∧ m_purge_timer s2 = m_purge_timer s)
  ∧ (∀ new_quads s2, receiver_quads new_quads s1 = Some s2 →
       m_update_timer s2 = m_update_timer s ∧ m_purge_timer s2 = m_purge_timer s).
Proof.
  unfold set_enabled. intros Hs1.
  apply schedule_update_Some in Hs1 as [Hlt ->]. cbn.
  split; [reflexivity|]. split; [reflexivity|]. split.
  - intros camera s2 Hs2. unfold update_camera in Hs2.
    apply schedule_update_Some in Hs2 as [_ ->]. cbn. now split.
  - intros new_quads s2 Hs2. unfold receiver_quads in Hs2.
    destruct (schedule_purge _) as [s3|] eqn:Hs3; [|discriminate Hs2].
    cbn in Hs2. apply schedule_purge_Some in Hs3 as [_ ->]. cbn in Hs2.
    apply schedule_update_Some in Hs2 as [_ ->]. cbn. now split.
Qed.

(** X14.  [set_update_timeout] checks the stored timeout, not the new one: a
    value of INT_MAX or more is stored, and from then on every call that
    arms the update timer, and [set_update_timeout] itself, stops at its
    assertion. *)
Theorem set_update_timeout_locks_out s t :
  m_update_timeout s < INT_MAX →
  INT_MAX ≤ t →
  ∃ s',
    set_update_timeout t s = Some s'
    ∧ m_update_timeout s' = t
    ∧ (∀ camera, update_camera camera s' = None)
    ∧ (∀ new_quads, receiver_quads new_quads s' = None)
    ∧ (∀ b, set_enabled b s' = None)
    ∧ (∀ t', set_update_timeout t' s' = None).
Proof.
  intros Hlt Hge. unfold set_update_timeout.
  rewrite option_guard_True by exact Hlt. cbn.
  eexists. split; [reflexivity|].
  assert (m_update_timeout
            (if QTimer.isActive (m_update_timer s)
             then with_update_timer
                    (QTimer.start (to_int t) (m_update_timer s))
                    (with_update_timeout t s)
             else with_update_timeout t s) = t) as Ht.
  { now destruct (QTimer.isActive (m_update_timer s)). }
  split; [exact Ht|]. repeat split.
  - intros camera. unfold update_camera. apply schedule_update_None.
    cbn. now rewrite Ht.
  - intros new_quads. unfold receiver_quads.
    destruct (schedule_purge _) as [s3|] eqn:Hs3; [|reflexivity].
    cbn. apply schedule_purge_Some in Hs3 as [_ ->].
    apply schedule_update_None.
    match goal with
    | |- context [if ?b then _ else _] => destruct b
    end; cbn; now rewrite Ht.
  - intros b. unfold set_enabled. apply schedule_update_None. cbn. now rewrite Ht.
  - intros t'. rewrite Ht. rewrite option_guard_False by lia. reflexivity.
Qed.

(** X8.  Delivery: every delivered id is in the RAM cache afterwards, nothing
    that was there is lost, the shadow cache is untouched, and the next
    request is the previous one with the delivered ids taken out. *)
Theorem receiver_quads_delivers new_quads s s' :
  receiver_quads new_quads s = Some s' →
  (∀ id, id ∈ Cache.ids (m_ram_cache s') ↔
         id ∈ map TileQuad.id new_quads ∨ id ∈ Cache.ids (m_ram_cache s))
  ∧ m_gpu_cached s' = m_gpu_cached s
  ∧ ∀ fuel ids,
      send_quad_requests fuel s = Some (quads_requested ids) →
      send_quad_requests fuel s'
      = Some (quads_requested
                (filter (λ id, id ∉ map TileQuad.id new_quads) ids)).
Proof.
  unfold receiver_quads. intros Hs'.
  destruct (schedule_purge _) as [s3|] eqn:Hs3; [|discriminate Hs'].
  cbn in Hs'. apply schedule_purge_Some in Hs3 as [_ ->].
  apply schedule_update_Some in Hs' as [_ ->].
  set (s1 := with_ram_cache (Cache.insert new_quads (m_ram_cache s)) s).
  assert (∀ sx, m_ram_cache sx = m_ram_cache s1 →
                m_gpu_cached sx = m_gpu_cached s1 →
                should_refine sx = should_refine s1 →
                (∀ id, id ∈ Cache.ids (m_ram_cache sx) ↔
                       id ∈ map TileQuad.id new_quads ∨ id ∈ Cache.ids (m_ram_cache s))
                ∧ m_gpu_cached sx = m_gpu_cached s
                ∧ ∀ fuel ids,
                    send_quad_requests fuel s = Some (quads_requested ids) →
                    send_quad_requests fuel sx
                    = Some (quads_requested
                              (filter (λ id, id ∉ map TileQuad.id new_quads) ids)))
    as Hgen.
  { intros sx Hram Hgpu Href.
    assert (∀ id, id ∈ Cache.ids (m_ram_cache sx) ↔
                  id ∈ map TileQuad.id new_quads ∨ id ∈ Cache.ids (m_ram_cache s))
      as Hids.
    { intros id. rewrite Hram. unfold s1. cbn. apply insert_ids. }
    split; [exact Hids|]. split; [now rewrite Hgpu|].
    intros fuel ids. unfold send_quad_requests, tiles_for_current_camera_position.
    rewrite Href. change (should_refine s1) with (should_refine s).
    destruct (quad_tree.onTheFlyTraverse fuel tile.root (should_refine s) _ [])
      as [[leaves inner]|]; [|discriminate].
    cbn. intros [= <-]. do 2 f_equal. rewrite list_filter_filter.
    apply list_filter_iff. intros id.
    unfold Cache.contains.
    rewrite !bool_decide_spec, Hids. tauto. }
  repeat match goal with
         | |- context [if ?b then _ else _] => destruct b
         end; apply Hgen; reflexivity.
Qed.

(** X7.  The two slots of the update timer do not interfere: the request is
    the same whether it is computed before or after [update_gpu_quads]. *)
Theorem send_quad_requests_after_update_gpu_quads fuel s :
  send_quad_requests fuel (update_gpu_quads s).1 = send_quad_requests fuel s.
Proof.
  unfold send_quad_requests, tiles_for_current_camera_position.
  rewrite update_gpu_quads_should_refine.
  destruct (quad_tree.onTheFlyTraverse fuel tile.root (should_refine s) _ [])
    as [[leaves inner]|]; [|reflexivity].
  cbn. do 2 f_equal. apply list_filter_iff. intros id.
  unfold Cache.contains.
  rewrite update_gpu_quads_ram.
  now rewrite (visit_ids (promote s) _ _ _ (promote_flag s)).
Qed.

End ArmingFacts.

(** ** Sequences of calls and timer expiries *)

Section RunFacts.
Context `{Ext : Externals}.
Implicit Types (s : Scheduler) (ev : Event) (evs : list Event).

Lemma set_purge_timeout_Some t s s' :
  set_purge_timeout t s = Some s' →
  t < INT_MAX
  ∧ s' = (if QTimer.isActive (m_purge_timer s)
          then with_purge_timer
                 (QTimer.start (to_int (m_update_timeout s)) (m_purge_timer s))
                 (with_purge_timeout t s)
          else with_purge_timeout t s).
Proof.
  unfold set_purge_timeout. intros Hs.
  destruct (decide (t < INT_MAX)) as [Hlt|Hge].
  - rewrite option_guard_True in Hs by exact Hlt. cbn in Hs.
    injection Hs as <-. now split.
  - rewrite option_guard_False in Hs by exact Hge. discriminate Hs.
Qed.

Lemma set_update_timeout_Some t s s' :
  set_update_timeout t s = Some s' →
  m_update_timeout s < INT_MAX
  ∧ s' = (if QTimer.isActive (m_update_timer s)
          then with_update_timer
                 (QTimer.start (to_int t) (m_update_timer s))
                 (with_update_timeout t s)
          else with_update_timeout t s).
Proof.
  unfold set_update_timeout. intros Hs.
  destruct (decide (m_update_timeout s < INT_MAX)) as [Hlt|Hge].
  - rewrite option_guard_True in Hs by exact Hlt. cbn in Hs.
    injection Hs as <-. now split.
  - rewrite option_guard_False in Hs by exact Hge. discriminate Hs.
Qed.

Lemma receiver_quads_Some new_quads s s' :
  receiver_quads new_quads s = Some s' →
  m_ram_cache s' = Cache.insert new_quads (m_ram_cache s)
  ∧ m_gpu_cached s' = m_gpu_cached s
  ∧ m_purge_timeout s' = m_purge_timeout s
  ∧ m_ram_quad_limit s' = m_ram_quad_limit s
  ∧ m_gpu_quad_limit s' = m_gpu_quad_limit s.
Proof.
  unfold receiver_quads. intros Hs'.
  destruct (schedule_purge _) as [s3|] eqn:Hs3; [|discriminate Hs'].
  cbn in Hs'. apply schedule_purge_Some in Hs3 as [_ ->].
  apply schedule_update_Some in Hs' as [_ ->].
  repeat match goal with
         | |- context [if ?b then _ else _] => destruct b
         end; cbn; auto.
Qed.

Lemma update_pass_Some fuel s s' sigs :
  update_pass fuel s = Some (s', sigs) →
  let s0 := with_update_timer (QTimer.fire (m_update_timer s)) s in
  ∃ ids, send_quad_requests fuel s = Some (quads_requested ids)
         ∧ s' = (update_gpu_quads s0).1
         ∧ sigs = [quads_requested ids; (update_gpu_quads s0).2].
Proof.
  unfold update_pass. cbn zeta.
  set (s0 := with_update_timer _ s).
  change (send_quad_requests fuel s0) with (send_quad_requests fuel s).
  unfold send_quad_requests at 1.
  destruct (tiles_for_current_camera_position fuel s) as [W|] eqn:HW;
    [|discriminate].
  cbn. destruct (update_gpu_quads s0) as [s1 updated]. intros [= <- <-].
  eexists. split; [|split; reflexivity].
  unfold send_quad_requests. rewrite HW. reflexivity.
Qed.

Lemma purge_pass_Some s s' :
  purge_pass s = Some s' →
  let s0 := with_purge_timer (QTimer.fire (m_purge_timer s)) s in
  s' = s0
  ∨ s' = with_ram_cache
           (Cache.purge
              (Cache.visit_pure (λ quad, should_refine s (TileQuad.id quad))
                                (m_ram_cache s))).1 s0.
Proof.
  unfold purge_pass, purge_ram_cache. cbn.
  destruct (purge_threshold (m_ram_quad_limit s)) as [T|]; [|discriminate].
  cbn. destruct (_ <? T); intros [= <-]; [now left|now right].
Qed.

(** What one event keeps. *)
Lemma handle_keeps ev s s' sigs :
  handle ev s = Some (s', sigs) →
  (m_purge_timeout s < INT_MAX → m_purge_timeout s' < INT_MAX)
  ∧ (Cache.m_capacity (m_ram_cache s) = m_ram_quad_limit s →
     Cache.m_capacity (m_ram_cache s') = m_ram_quad_limit s')
  ∧ (Cache.m_capacity (m_gpu_cached s) = m_gpu_quad_limit s →
     Cache.m_capacity (m_gpu_cached s') = m_gpu_quad_limit s')
  ∧ (NoDup (Cache.ids (m_ram_cache s)) → NoDup (Cache.ids (m_gpu_cached s)) →
     NoDup (Cache.ids (m_ram_cache s'))
     ∧ NoDup (Cache.ids (m_gpu_cached s'))
     ∧ id_set (m_gpu_cached s') = replay sigs (id_set (m_gpu_cached s))).
Proof.
  destruct ev; cbn [handle]; intros Hev.
  - (* update_camera *)
    destruct (update_camera camera s) as [s1|] eqn:H1; [|discriminate Hev].
    cbn in Hev. injection Hev as <- <-. unfold update_camera in H1.
    apply schedule_update_Some in H1 as [_ ->].
    destruct (_ && _); cbn; repeat split; auto.
  - (* receiver_quads *)
    destruct (receiver_quads new_quads s) as [s1|] eqn:H1; [|discriminate Hev].
    cbn in Hev. injection Hev as <- <-.
    apply receiver_quads_Some in H1 as (Hram & Hgpu & Hpt & Hrl & Hgl).
    rewrite Hram, Hgpu, Hpt, Hrl, Hgl, insert_capacity.
    repeat split; auto using insert_NoDup.
  - (* set_purge_timeout *)
    destruct (set_purge_timeout _ s) as [s1|] eqn:H1; [|discriminate Hev].
    cbn in Hev. injection Hev as <- <-.
    apply set_purge_timeout_Some in H1 as [Hlt ->].
    destruct (QTimer.isActive _); cbn; repeat split; auto.
  - (* set_update_timeout *)
    destruct (set_update_timeout _ s) as [s1|] eqn:H1; [|discriminate Hev].
    cbn in Hev. injection Hev as <- <-.
    apply set_update_timeout_Some in H1 as [Hlt ->].
    destruct (QTimer.isActive _); cbn; repeat split; auto.
  - (* set_ram_quad_limit *)
    cbn in Hev. injection Hev as <- <-. cbn. repeat split; auto.
  - (* set_gpu_quad_limit *)
    cbn in Hev. injection Hev as <- <-. cbn. repeat split; auto.
  - (* set_aabb_decorator *)
    cbn in Hev. injection Hev as <- <-. cbn. repeat split; auto.
  - (* set_permissible_screen_space_error *)
    cbn in Hev. injection Hev as <- <-. cbn. repeat split; auto.
  - (* set_enabled *)
    destruct (set_enabled _ s) as [s1|] eqn:H1; [|discriminate Hev].
    cbn in Hev. injection Hev as <- <-. unfold set_enabled in H1.
    apply schedule_update_Some in H1 as [_ ->].
    destruct (_ && _); cbn; repeat split; auto.
  - (* the update timer *)
    apply update_pass_Some in Hev as (ids & _ & -> & ->). cbn zeta.
    set (s0 := with_update_timer _ s).
    rewrite update_gpu_quads_gpu, update_gpu_quads_ram.
    rewrite update_gpu_quads_stages. cbn [fst snd].
    change (m_purge_timeout (with_gpu_cached _ (with_ram_cache _ s0)))
      with (m_purge_timeout s).
    change (m_ram_quad_limit (with_gpu_cached _ (with_ram_cache _ s0)))
      with (m_ram_quad_limit s).
    change (m_gpu_quad_limit (with_gpu_cached _ (with_ram_cache _ s0)))
      with (m_gpu_quad_limit s).
    split; [auto|]. split; [|split].
    + now rewrite visit_capacity.
    + now rewrite purge_capacity, gpu_cached_before_purge_capacity.
    + intros HndR HndG. split; [|split].
      * now rewrite (visit_ids (promote s0) _ _ _ (promote_flag s0)).
      * apply purge_NoDup. now apply before_purge_NoDup.
      * unfold replay, id_set. cbn [fold_left apply_delta].
        apply set_eq. intros id.
        rewrite elem_of_list_to_set, (shadow_after_pass s0 id HndR HndG).
        rewrite elem_of_difference, elem_of_union, !elem_of_list_to_set.
        rewrite elem_of_elements.
        change (m_gpu_cached s0) with (m_gpu_cached s).
        split; [|tauto].
        intros [[Hin Hnr]|Ha]; [tauto|]. split; [tauto|].
        map_as_fmap. apply list_elem_of_fmap in Ha as (q & -> & Hq).
        now apply erase_superfluous_kept.
  - (* the purge timer *)
    destruct (purge_pass s) as [s1|] eqn:H1; [|discriminate Hev].
    cbn in Hev. injection Hev as <- <-.
    apply purge_pass_Some in H1 as [->| ->]; cbn; [repeat split; auto|].
    rewrite purge_capacity, visit_pure_capacity.
    repeat split; auto.
    apply purge_NoDup. now rewrite visit_pure_ids.
Qed.

Lemma replay_app sigs1 sigs2 (resident : gset tile.Id) :
  replay (sigs1 ++ sigs2) resident = replay sigs2 (replay sigs1 resident).
Proof. unfold replay. apply fold_left_app. Qed.

Lemma run_cons ev evs s s' sigs :
  run (ev :: evs) s = Some (s', sigs) →
  ∃ s1 sigs1 sigs2,
    handle ev s = Some (s1, sigs1)
    ∧ run evs s1 = Some (s', sigs2)
    ∧ sigs = sigs1 ++ sigs2.
Proof.
  cbn [run]. destruct (handle ev s) as [[s1 sigs1]|]; [|discriminate].
  cbn. destruct (run evs s1) as [[s2 sigs2]|] eqn:Hrun; [|discriminate].
  cbn. intros [= <- <-]. exists s1, sigs1, sigs2. now repeat split.
Qed.

(** X15.  The purge timeout can only be set through [set_purge_timeout], which
    checks it: once below INT_MAX it stays below, whatever is called. *)
Theorem purge_timeout_stays_valid evs s s' sigs :
  m_purge_timeout s < INT_MAX →
  run evs s = Some (s', sigs) →
  m_purge_timeout s' < INT_MAX.
Proof.
  revert s sigs. induction evs as [|ev evs IH]; intros s sigs Hlt Hrun.
  - cbn in Hrun. now injection Hrun as <- <-.
  - apply run_cons in Hrun as (s1 & sigs1 & sigs2 & Hev & Hrun & _).
    apply handle_keeps in Hev as (Hpt & _).
    exact (IH s1 sigs2 (Hpt Hlt) Hrun).
Qed.

(** X16.  A limit and the capacity of its cache are only ever set together:
    if they agree they keep agreeing. *)
Theorem capacities_follow_limits evs s s' sigs :
  Cache.m_capacity (m_ram_cache s) = m_ram_quad_limit s →
  Cache.m_capacity (m_gpu_cached s) = m_gpu_quad_limit s →
  run evs s = Some (s', sigs) →
  Cache.m_capacity (m_ram_cache s') = m_ram_quad_limit s'
  ∧ Cache.m_capacity (m_gpu_cached s') = m_gpu_quad_limit s'.
Proof.
  revert s sigs. induction evs as [|ev evs IH]; intros s sigs Hram Hgpu Hrun.
  - cbn in Hrun. injection Hrun as <- <-. now split.
  - apply run_cons in Hrun as (s1 & sigs1 & sigs2 & Hev & Hrun & _).
    apply handle_keeps in Hev as (_ & Hr & Hg & _).
    exact (IH s1 sigs2 (Hr Hram) (Hg Hgpu) Hrun).
Qed.

(** X5.  The receiver of the deltas stays in step with the scheduler: over any
    sequence of calls and timer expiries, replaying the emitted
    [gpu_quads_updated] signals on the ids the shadow cache held at the
    start gives the ids it holds at the end; the ids of both caches stay
    distinct. *)
Theorem replayed_deltas_match_shadow_cache evs s s' sigs :
  NoDup (Cache.ids (m_ram_cache s)) →
  NoDup (Cache.ids (m_gpu_cached s)) →
  run evs s = Some (s', sigs) →
  id_set (m_gpu_cached s') = replay sigs (id_set (m_gpu_cached s))
  ∧ NoDup (Cache.ids (m_ram_cache s'))
  ∧ NoDup (Cache.ids (m_gpu_cached s')).
Proof.
  revert s sigs. induction evs as [|ev evs IH]; intros s sigs HndR HndG Hrun.
  - cbn in Hrun. injection Hrun as <- <-. now repeat split.
  - apply run_cons in Hrun as (s1 & sigs1 & sigs2 & Hev & Hrun & ->).
    apply handle_keeps in Hev as (_ & _ & _ & Hnd).
    destruct (Hnd HndR HndG) as (HndR1 & HndG1 & Hset).
    destruct (IH s1 sigs2 HndR1 HndG1 Hrun) as (Hset' & HndR' & HndG').
    rewrite replay_app, <- Hset. now repeat split.
Qed.

End RunFacts.

(** ** Layout of a promoted quad; the purge pass *)

Section LayoutFacts.
Context `{Ext : Externals}.
Implicit Types (s : Scheduler) (src : list LayeredTile.t)
               (slots : list (option GpuTile.t)).

Lemma fill_slots_after s src a n slots (i : nat) :
  (a + n ≤ i)%nat →
  fold_left
    (λ slots i,
       match src !! i with
       | Some t => <[ i := Some (make_gpu_tile s t) ]> slots
       | None => slots
       end) (seq a n) slots !! i
  = slots !! i.
Proof.
  revert a slots. induction n as [|n IH]; intros a slots Hi; cbn; [reflexivity|].
  rewrite IH by lia.
  destruct (src !! a); [|reflexivity].
  apply list_lookup_insert_ne. lia.
Qed.

(** X11.  A promoted quad keeps the id of its source; it always has four
    slots; slot [i] below [n_tiles] carries the id of child [i] and the
    bounding box the decorator gives for that id; the slots from
    [n_tiles] on are left as constructed. *)
Theorem make_gpu_quad_layout s quad :
  GpuTileQuad.id (make_gpu_quad s quad) = TileQuad.id quad
  ∧ length (GpuTileQuad.tiles (make_gpu_quad s quad)) = 4%nat
  ∧ (∀ (i : nat) t,
       TileQuad.tiles quad !! i = Some t →
       (i < Z.to_nat (TileQuad.n_tiles quad))%nat → (i < 4)%nat →
       ∃ g, GpuTileQuad.tiles (make_gpu_quad s quad) !! i = Some (Some g)
            ∧ GpuTile.id g = LayeredTile.id t
            ∧ GpuTile.bounds g = aabb (m_aabb_decorator s) (LayeredTile.id t))
  ∧ (∀ i : nat,
       (Z.to_nat (TileQuad.n_tiles quad) ≤ i < 4)%nat →
       GpuTileQuad.tiles (make_gpu_quad s quad) !! i = Some None).
Proof.
  split; [reflexivity|]. split; [|split].
  - unfold make_gpu_quad. cbn [GpuTileQuad.tiles].
    now rewrite fill_slots_length.
  - intros i t Ht Hn H4. exists (make_gpu_tile s t).
    split; [now apply make_gpu_quad_slot|]. now split.
  - intros i [Hn H4]. unfold make_gpu_quad. cbn [GpuTileQuad.tiles].
    rewrite fill_slots_after by lia.
    now apply lookup_replicate_2.
Qed.

(** X9.  The purge pass only drops quads from the RAM cache: what stays is a
    sublist of what was there, the shadow cache and the parameters are not
    touched, and every id requested before the pass is still requested
    after it. *)
Theorem purge_ram_cache_only_drops s s' :
  purge_ram_cache s = Some s' →
  map Cache.data (Cache.m_data (m_ram_cache s'))
    `sublist_of` map Cache.data (Cache.m_data (m_ram_cache s))
  ∧ Cache.m_capacity (m_ram_cache s') = Cache.m_capacity (m_ram_cache s)
  ∧ m_gpu_cached s' = m_gpu_cached s
  ∧ should_refine s' = should_refine s
  ∧ ∀ fuel ids ids',
      send_quad_requests fuel s = Some (quads_requested ids) →
      send_quad_requests fuel s' = Some (quads_requested ids') →
      ids `sublist_of` ids'.
Proof.
  unfold purge_ram_cache.
  destruct (purge_threshold (m_ram_quad_limit s)) as [T|]; [|discriminate].
  cbn. destruct (_ <? T).
  - intros [= <-]. repeat split; try reflexivity.
    intros fuel ids ids' -> [= <-]. reflexivity.
  - intros [= <-]. cbn.
    set (visited := Cache.visit_pure _ (m_ram_cache s)).
    assert (map Cache.data (Cache.m_data (Cache.purge visited).1)
              `sublist_of` map Cache.data (Cache.m_data (m_ram_cache s))) as Hsub.
    { transitivity (map Cache.data (Cache.m_data visited)).
      - map_as_fmap. apply fmap_sublist, purge_sublist.
      - unfold visited. rewrite visit_pure_data, map_map. reflexivity. }
    split; [exact Hsub|]. split.
    { unfold visited. now rewrite purge_capacity, visit_pure_capacity. }
    split; [reflexivity|]. split; [reflexivity|].
    intros fuel ids ids'.
    unfold send_quad_requests, tiles_for_current_camera_position.
    change (should_refine (with_ram_cache _ s)) with (should_refine s).
    destruct (quad_tree.onTheFlyTraverse fuel tile.root (should_refine s) _ [])
      as [[leaves inner]|]; [|discriminate].
    cbn. intros [= <-] [= <-].
    assert (∀ id, id ∈ Cache.ids (Cache.purge visited).1 →
                  id ∈ Cache.ids (m_ram_cache s)) as Hids.
    { intros id Hid. unfold Cache.ids in *.
      rewrite <- (map_map Cache.data TileQuad.id) in Hid |- *.
      eapply elem_of_sublist; [exact Hid|].
      map_as_fmap. now apply fmap_sublist. }
    induction inner as [|id inner IH]; [constructor|].
    unfold Cache.contains in *.
    destruct (decide (id ∈ Cache.ids (m_ram_cache s))) as [Hin|Hout].
    + rewrite (filter_cons_False _ id inner)
        by (rewrite bool_decide_eq_true_2 by exact Hin; cbn; tauto).
      destruct (decide (id ∈ Cache.ids (Cache.purge visited).1)) as [Hin'|Hout'].
      * rewrite filter_cons_False
          by (rewrite bool_decide_eq_true_2 by exact Hin'; cbn; tauto).
        exact IH.
      * rewrite filter_cons_True
          by (rewrite bool_decide_eq_false_2 by exact Hout'; cbn; tauto).
        now apply sublist_cons.
    + rewrite (filter_cons_True _ id inner)
        by (rewrite bool_decide_eq_false_2 by exact Hout; cbn; tauto).
      rewrite filter_cons_True.
      * now apply sublist_skip.
      * rewrite bool_decide_eq_false_2; [cbn; tauto|]. intros Hin'. auto.
Qed.

End LayoutFacts.

(** * Further properties of gl_engine::Texture *)

Section TextureGLFacts.
Import Texture TextureGL.
Implicit Types (t : Texture) (p : Platform).

(** X17.  The algorithm announced to the tile service fits the format the
    uploads hand to GL: DXT1 exactly with the S3TC format, ETC1 with the
    ETC1 format or, on Android, with ETC2 (which reads ETC1 data). *)
Theorem compression_algorithm_fits_format p :
  (compression_algorithm p = DXT1 ↔
   compressed_texture_format p = GL_COMPRESSED_RGB_S3TC_DXT1_EXT)
  ∧ (compression_algorithm p = ETC1 ↔
     compressed_texture_format p = COMPRESSED_RGB_ETC1_WEBGL
     ∨ compressed_texture_format p = GL_COMPRESSED_RGB8_ETC2)
  ∧ (compressed_texture_format p = GL_COMPRESSED_RGB8_ETC2 ↔ p = Android).
Proof.
  destruct p as [[|]| |]; cbn; repeat split; intros; try discriminate;
    try reflexivity; try (left; reflexivity); try (right; reflexivity);
    repeat match goal with
           | H : _ ∨ _ |- _ => destruct H
           end; discriminate.
Qed.

Lemma setParams_Some t mn mg t' :
  setParams t mn mg = Some t' →
  t' = {| m_target := m_target t; m_format := m_format t; m_id := m_id t;
          m_min_filter := mn; m_mag_filter := mg |}
  ∧ mg ≠ MipMapLinear
  ∧ (m_format t = CompressedRGBA8 → mn ≠ MipMapLinear)
  ∧ (m_format t = R16UI → mn = Nearest ∧ mg = Nearest).
Proof.
  unfold setParams.
  destruct (m_format t) eqn:Hf, mn, mg; cbn; intros [= <-];
    repeat split; intros; congruence.
Qed.

Lemma upload_colour_is_Some p t tex :
  is_Some (upload_colour p t tex) ↔
  m_format t = RGBA8
  ∨ (m_format t = CompressedRGBA8 ∧ m_min_filter t ≠ MipMapLinear).
Proof.
  unfold upload_colour.
  destruct (m_format t) eqn:Hf, (m_min_filter t) eqn:Hm; cbn; split;
    solve [ intros [? [=]]
          | intros _; first [left; reflexivity | right; split; congruence]
          | intros _; eexists; reflexivity
          | intros [[=]|[[=] ?]]
          | intros [[=]|[_ Hn]]; exfalso; apply Hn; reflexivity ].
Qed.

Lemma upload_r16_is_Some t tex :
  is_Some (upload_r16 t tex) ↔
  m_format t = R16UI ∧ m_mag_filter t = Nearest ∧ m_min_filter t = Nearest.
Proof.
  unfold upload_r16.
  destruct (m_format t) eqn:Hf, (m_min_filter t) eqn:Hm, (m_mag_filter t) eqn:Hg;
    cbn; split;
    solve [ intros [? [=]]
          | intros _; repeat split
          | intros _; eexists; reflexivity
          | intros (? & ? & ?); discriminate ].
Qed.

Lemma upload_rg8_is_Some t tex :
  is_Some (upload_rg8 t tex) ↔ m_format t = RG8.
Proof.
  unfold upload_rg8.
  destruct (m_format t) eqn:Hf; cbn; split;
    solve [ intros [? [=]] | intros _; reflexivity
          | intros _; eexists; reflexivity | intros [=] ].
Qed.

(** X18.  Once [setParams] has accepted the filters, no upload stops at a
    filter assertion: each kind of upload goes through exactly for the
    formats it is written for. *)
Theorem uploads_after_setParams p t mn mg t' :
  setParams t mn mg = Some t' →
  (∀ tex, is_Some (upload_colour p t' tex) ↔
          m_format t = RGBA8 ∨ m_format t = CompressedRGBA8)
  ∧ (∀ tex, is_Some (upload_rg8 t' tex) ↔ m_format t = RG8)
  ∧ (∀ tex, is_Some (upload_r16 t' tex) ↔ m_format t = R16UI).
Proof.
  intros Hset. apply setParams_Some in Hset as (-> & Hmg & Hc & Hr).
  split; [|split]; intros tex.
  - rewrite upload_colour_is_Some. cbn. split.
    + intros [?|[? _]]; auto.
    + intros [?|Hf]; [now left|right]. split; [exact Hf|exact (Hc Hf)].
  - rewrite upload_rg8_is_Some. reflexivity.
  - rewrite upload_r16_is_Some. cbn. split.
    + now intros (? & _).
    + intros Hf. destruct (Hr Hf) as [-> ->]. auto.
Qed.

Lemma allocate_array_Invalid p (t : ArrayTexture) w h n :
  m_format (texture t) = Invalid → allocate_array p t w h n = None.
Proof.
  intros Hf. unfold allocate_array.
  repeat case_guard; try contradiction; reflexivity.
Qed.

(** X19.  The three kinds of upload exclude each other, and a texture of
    format Invalid takes none of them nor an array allocation. *)
Theorem uploads_exclude_each_other p t tex raster :
  (is_Some (upload_colour p t tex) → upload_rg8 t raster = None
                                     ∧ upload_r16 t raster = None)
  ∧ (is_Some (upload_rg8 t raster) → upload_colour p t tex = None
                                     ∧ upload_r16 t raster = None)
  ∧ (is_Some (upload_r16 t raster) → upload_colour p t tex = None
                                     ∧ upload_rg8 t raster = None)
  ∧ (m_format t = Invalid →
     upload_colour p t tex = None ∧ upload_rg8 t raster = None
     ∧ upload_r16 t raster = None
     ∧ ∀ w h n layers,
         allocate_array p {| texture := t; m_width := w; m_height := h;
                             m_n_layers := n |} w h layers = None).
Proof.
  split; [|split; [|split]].
  - intros Hc%upload_colour_is_Some.
    split; apply eq_None_not_Some.
    + intros Hg%upload_rg8_is_Some. destruct Hc as [?|[? _]]; congruence.
    + intros (? & _)%upload_r16_is_Some. destruct Hc as [?|[? _]]; congruence.
  - intros Hg%upload_rg8_is_Some.
    split; apply eq_None_not_Some.
    + intros Hc%upload_colour_is_Some. destruct Hc as [?|[? _]]; congruence.
    + intros (? & _)%upload_r16_is_Some. congruence.
  - intros (Hr & _)%upload_r16_is_Some.
    split; apply eq_None_not_Some.
    + intros Hc%upload_colour_is_Some. destruct Hc as [?|[? _]]; congruence.
    + intros Hg%upload_rg8_is_Some. congruence.
  - intros Hf. repeat split; try apply eq_None_not_Some.
    + intros Hc%upload_colour_is_Some. destruct Hc as [?|[? _]]; congruence.
    + intros Hg%upload_rg8_is_Some. congruence.
    + intros (? & _)%upload_r16_is_Some. congruence.
    + intros w h n layers. now apply allocate_array_Invalid.
Qed.

(** X20.  Mipmaps are generated by an upload exactly for an uncompressed
    colour texture with the MipMapLinear minification filter, as the last
    call; every call of the upload addresses the texture's own target. *)
Theorem upload_colour_mipmaps p t tex calls :
  upload_colour p t tex = Some calls →
  (glGenerateMipmap (m_target t) ∈ calls ↔
   m_format t = RGBA8 ∧ m_min_filter t = MipMapLinear)
  ∧ (m_format t = CompressedRGBA8 →
     calls = [ glBindTexture (m_target t) (m_id t);
               glPixelStorei_UNPACK_ALIGNMENT 1;
               glCompressedTexImage2D (m_target t) 0 (compressed_texture_format p)
                 (to_int (ct_width tex)) (to_int (ct_height tex)) 0
                 (to_int (ct_n_bytes tex)) (ct_data tex) ])
  ∧ (∀ target, glGenerateMipmap target ∈ calls →
               last calls = Some (glGenerateMipmap target) ∧ target = m_target t).
Proof.
  unfold upload_colour.
  destruct (m_format t) eqn:Hf, (m_min_filter t) eqn:Hm; cbn;
    intros [= <-]; (split; [|split]);
    try (intros; discriminate); try (intros; reflexivity);
    try (split; [intros Hin|intros [? ?]; try discriminate;
                               repeat constructor]);
    try (intros target Hin);
    repeat match goal with
           | H : _ ∈ _ :: _ |- _ => apply elem_of_cons in H as [H|H]
           | H : _ ∈ [] |- _ => now apply elem_of_nil in H
           | H : glGenerateMipmap _ = _ |- _ => try discriminate H;
                                                 injection H as ->
           end;
    try discriminate; try (now split); auto.
Qed.

End TextureGLFacts.

Section TextureArrayFacts.
Import Texture TextureGL.
Implicit Types (t : ArrayTexture) (p : Platform).

Lemma allocate_array_Some p t w h n t' calls :
  allocate_array p t w h n = Some (t', calls) →
  m_target (texture t) = _2dArray
  ∧ m_format (texture t) ≠ Invalid
  ∧ t' = {| texture := texture t; m_width := w; m_height := h; m_n_layers := n |}
  ∧ ∃ levels,
      (if decide (m_min_filter (texture t) = MipMapLinear)
       then mip_levels w h else Some 1) = Some levels
      ∧ calls
        = [ glBindTexture (m_target (texture t)) (m_id (texture t));
            glTexStorage3D (m_target (texture t)) levels
              (if decide (m_format (texture t) = CompressedRGBA8)
               then Compressed (compressed_texture_format p)
               else GLenum_of_Format (m_format (texture t)))
              (to_int w) (to_int h) (to_int n) ].
Proof.
  unfold allocate_array. intros Hal.
  destruct (decide (m_target (texture t) = _2dArray)) as [Ht|Ht].
  2:{ repeat case_guard; try contradiction; discriminate Hal. }
  destruct (decide (m_format (texture t) ≠ Invalid)) as [Hf|Hf].
  2:{ repeat case_guard; try contradiction; discriminate Hal. }
  repeat case_guard; try contradiction. cbn in Hal.
  destruct (if decide (m_min_filter (texture t) = MipMapLinear)
            then mip_levels w h else Some 1) as [levels|] eqn:Hl;
    [|discriminate Hal].
  cbn in Hal. injection Hal as <- <-.
  repeat split; try assumption. now exists levels.
Qed.

(** X21.  [allocate_array] needs an array target and a valid format; it stores
    the three sizes and leaves the rest of the object alone.  Without
    mipmap filtering it asks for one level; with it, for the full chain
    down to one texel: the level count [l] satisfies
    [2^(l-1) <= max(width, height) < 2^l]; a mipmapped 0 x 0 array has
    no defined level count and yields no result.  The sizes are
    [unsigned], hence not negative. *)
Theorem allocate_array_levels p t w h n t' calls :
  0 ≤ w → 0 ≤ h →
  allocate_array p t w h n = Some (t', calls) →
  m_target (texture t) = _2dArray
  ∧ m_format (texture t) ≠ Invalid
  ∧ texture t' = texture t
  ∧ m_width t' = w ∧ m_height t' = h ∧ m_n_layers t' = n
  ∧ ∃ levels internalformat,
      calls = [ glBindTexture (m_target (texture t)) (m_id (texture t));
                glTexStorage3D (m_target (texture t)) levels internalformat
                  (to_int w) (to_int h) (to_int n) ]
      ∧ (m_min_filter (texture t) ≠ MipMapLinear → levels = 1)
      ∧ (m_min_filter (texture t) = MipMapLinear →
         0 < Z.max w h
         ∧ 2 ^ (levels - 1) ≤ Z.max w h < 2 ^ levels)
      ∧ (internalformat = Compressed (compressed_texture_format p) ↔
         m_format (texture t) = CompressedRGBA8).
Proof.
  intros Hw Hh Hal.
  apply allocate_array_Some in Hal as (Ht & Hf & -> & levels & Hl & ->).
  repeat split; try assumption; try reflexivity.
  exists levels. eexists. split; [reflexivity|]. split; [|split].
  - intros Hm. destruct (decide _) as [|_]; [contradiction|]. congruence.
  - intros Hm. destruct (decide _) as [_|]; [|contradiction].
    unfold mip_levels in Hl.
    destruct (Z.max w h =? 0) eqn:H0; [discriminate Hl|].
    injection Hl as <-. apply Z.eqb_neq in H0.
    assert (Hpos : 0 < Z.max w h) by lia.
    split; [exact Hpos|].
    replace (1 + Z.log2 (Z.max w h) - 1) with (Z.log2 (Z.max w h)) by lia.
    replace (1 + Z.log2 (Z.max w h)) with (Z.succ (Z.log2 (Z.max w h))) by lia.
    now apply Z.log2_spec.
  - destruct (decide (m_format (texture t) = CompressedRGBA8)) as [Hc|Hc].
    + now split.
    + split; [discriminate|contradiction].
Qed.

Lemma upload_colour_layer_is_Some p t tex i :
  is_Some (upload_colour_layer p t tex i) ↔
  ct_width tex = m_width t ∧ ct_height tex = m_height t ∧ i < m_n_layers t
  ∧ (m_format (texture t) = RGBA8
     ∨ m_format (texture t) = CompressedRGBA8
       ∧ m_min_filter (texture t) ≠ MipMapLinear).
Proof.
  unfold upload_colour_layer. cbv zeta. split.
  - intros [calls Hc].
    destruct (decide (m_format (texture t) = CompressedRGBA8)) as [Hf|Hf].
    + repeat case_guard; try discriminate Hc. clear Hc. auto 10.
    + destruct (decide (m_format (texture t) = RGBA8)) as [Hr|Hr];
        repeat case_guard; try discriminate Hc. clear Hc. auto 10.
  - intros (Hw & Hh & Hi & [Hr|[Hf Hm]]).
    + destruct (decide (m_format (texture t) = CompressedRGBA8)) as [Hf|Hf];
        [congruence|].
      destruct (decide (m_format (texture t) = RGBA8)) as [_|Hr'];
        [|contradiction].
      repeat case_guard; try contradiction. eexists; reflexivity.
    + destruct (decide (m_format (texture t) = CompressedRGBA8)) as [_|Hf'];
        [|contradiction].
      repeat case_guard; try contradiction. eexists; reflexivity.
Qed.

Lemma upload_r16_layer_is_Some t tex i :
  is_Some (upload_r16_layer t tex i) ↔
  m_format (texture t) = R16UI
  ∧ m_mag_filter (texture t) = Nearest ∧ m_min_filter (texture t) = Nearest
  ∧ i < m_n_layers t ∧ r_width tex = m_width t ∧ r_height tex = m_height t.
Proof.
  unfold upload_r16_layer. cbv zeta.
  split.
  - intros [calls Hc]. repeat case_guard; try discriminate Hc. tauto.
  - intros (H1 & H2 & H3 & H4 & H5 & H6).
    repeat case_guard; try contradiction. eexists; reflexivity.
Qed.

(** X22.  After [allocate_array(width, height, n_layers)] a layer upload passes
    its assertions exactly for layers below [n_layers] and images of the
    allocated size (and a format the overload accepts); in particular an
    array allocated with 0 layers accepts no upload, and nothing checks
    the image size against anything but the allocation. *)
Theorem layer_uploads_after_allocate_array p t w h n t' calls :
  allocate_array p t w h n = Some (t', calls) →
  (∀ tex i,
     is_Some (upload_colour_layer p t' tex i) ↔
     ct_width tex = w ∧ ct_height tex = h ∧ i < n
     ∧ (m_format (texture t) = RGBA8
        ∨ m_format (texture t) = CompressedRGBA8
          ∧ m_min_filter (texture t) ≠ MipMapLinear))
  ∧ (∀ tex i,
     is_Some (upload_r16_layer t' tex i) ↔
     r_width tex = w ∧ r_height tex = h ∧ i < n
     ∧ m_format (texture t) = R16UI
     ∧ m_mag_filter (texture t) = Nearest
     ∧ m_min_filter (texture t) = Nearest)
  ∧ (∀ tex i j,
     is_Some (upload_colour_layer p t' tex i) → j < i →
     is_Some (upload_colour_layer p t' tex j)).
Proof.
  intros Hal. apply allocate_array_Some in Hal as (_ & _ & -> & _).
  split; [|split].
  - intros tex i. rewrite upload_colour_layer_is_Some. cbn. reflexivity.
  - intros tex i. rewrite upload_r16_layer_is_Some. cbn. tauto.
  - intros tex i j. rewrite !upload_colour_layer_is_Some. cbn.
    intros (? & ? & ? & ?) ?. repeat split; auto. lia.
Qed.

End TextureArrayFacts.

(** ** Runs of the further properties on concrete schedulers and textures *)

Section DeltaRuns.
Import Sample.

(** GPU limit 1, two wanted quads: both are promoted, the older one is
    evicted by the purge of the same pass and only the other is added. *)
Lemma gpu_delta_added_run :
  let s := scheduler 5 10 1 [quad id0 None None; quad id1 None None] idle in
  NoDup (Cache.ids (m_ram_cache s))
  ∧ ∃ added removed,
      (update_gpu_quads s).2 = gpu_quads_updated added removed
      ∧ added = filter (λ q, GpuTileQuad.id q ∉ superfluous_ids s) (new_gpu_quads s)
      ∧ NoDup (map GpuTileQuad.id added).
Proof.
  cbn zeta.
  set (s := scheduler 5 10 1 [quad id0 None None; quad id1 None None] idle).
  assert (NoDup (Cache.ids (m_ram_cache s))) as Hnd by compute_done.
  split; [exact Hnd|]. exact (gpu_delta_added s Hnd).
Defined.

Lemma gpu_delta_added_origin_run :
  let s := scheduler 5 10 1 [quad id0 None None; quad id1 None None] idle in
  let q := make_gpu_quad s (quad id1 None None) in
  (update_gpu_quads s).2 = gpu_quads_updated [q] []
  ∧ q ∈ [q]
  ∧ ∃ quad,
      quad ∈ map Cache.data (Cache.m_data (m_ram_cache s))
      ∧ q = make_gpu_quad s quad
      ∧ GpuTileQuad.id q = TileQuad.id quad
      ∧ should_refine s (TileQuad.id quad) = true
      ∧ TileQuad.id quad ∉ Cache.ids (m_gpu_cached s).
Proof.
  cbn zeta.
  set (s := scheduler 5 10 1 [quad id0 None None; quad id1 None None] idle).
  set (q := make_gpu_quad s (quad id1 None None)).
  assert ((update_gpu_quads s).2 = gpu_quads_updated [q] []) as Hsig
    by (vm_compute; reflexivity).
  assert (q ∈ [q]) as Hin by apply list_elem_of_here.
  split; [exact Hsig|]. split; [exact Hin|].
  exact (gpu_delta_added_origin s [q] [] q Hsig Hin).
Defined.

(** The state after that pass holds quad 1 in the shadow cache; the next
    pass swaps it for quad 0, and the delta says so. *)
Lemma gpu_delta_is_shadow_change_run :
  let s := (update_gpu_quads
              (scheduler 5 10 1 [quad id0 None None; quad id1 None None] idle)).1 in
  NoDup (Cache.ids (m_ram_cache s))
  ∧ NoDup (Cache.ids (m_gpu_cached s))
  ∧ ∃ added removed,
      (update_gpu_quads s).2 = gpu_quads_updated added removed
      ∧ (∀ id, id ∈ Cache.ids (m_gpu_cached (update_gpu_quads s).1) ↔
               (id ∈ Cache.ids (m_gpu_cached s) ∧ id ∉ removed)
               ∨ id ∈ map GpuTileQuad.id added)
      ∧ NoDup (Cache.ids (m_gpu_cached (update_gpu_quads s).1))
      ∧ NoDup (Cache.ids (m_ram_cache (update_gpu_quads s).1)).
Proof.
  cbn zeta.
  set (s := (update_gpu_quads
               (scheduler 5 10 1 [quad id0 None None; quad id1 None None] idle)).1).
  assert (NoDup (Cache.ids (m_ram_cache s))) as HndR by compute_done.
  assert (NoDup (Cache.ids (m_gpu_cached s))) as HndG by compute_done.
  split; [exact HndR|]. split; [exact HndG|].
  exact (gpu_delta_is_shadow_change s HndR HndG).
Defined.

End DeltaRuns.

Section ArmingRuns.
Import Sample.

Lemma update_camera_coalesces_run :
  let s := scheduler 2 10 10 [] idle in
  m_enabled s = true
  ∧ ∃ s1,
      update_camera 3 s = Some s1
      ∧ QTimer.isActive (m_update_timer s1) = true
      ∧ (QTimer.isActive (m_update_timer s) = false →
         QTimer.interval (m_update_timer s1) = m_update_timeout s)
      ∧ (QTimer.isActive (m_update_timer s) = true →
         m_update_timer s1 = m_update_timer s)
      ∧ ∀ camera2, update_camera camera2 s1 = Some (with_current_camera camera2 s1).
Proof.
  cbn zeta.
  set (s := scheduler 2 10 10 [] idle).
  assert (m_enabled s = true) as Hen by reflexivity.
  split; [exact Hen|].
  assert (update_camera 3 s
          = Some (with_update_timer (armed 100) (with_current_camera 3 s))) as Hs1
    by (vm_compute; reflexivity).
  eexists. split; [exact Hs1|].
  exact (update_camera_coalesces s 3 _ Hen Hs1).
Defined.

(** The purge timer was running when the scheduler is disabled: it keeps
    running. *)
Lemma disabled_scheduler_arms_nothing_run :
  let s := scheduler 2 10 10 [] (armed 1000) in
  ∃ s1,
    set_enabled false s = Some s1
    ∧ m_update_timer s1 = m_update_timer s
    ∧ m_purge_timer s1 = m_purge_timer s
    ∧ (∀ camera s2, update_camera camera s1 = Some s2 →
         m_update_timer s2 = m_update_timer s ∧ m_purge_timer s2 = m_purge_timer s)
    ∧ (∀ new_quads s2, receiver_quads new_quads s1 = Some s2 →
         m_update_timer s2 = m_update_timer s ∧ m_purge_timer s2 = m_purge_timer s).
Proof.
  cbn zeta.
  set (s := scheduler 2 10 10 [] (armed 1000)).
  assert (set_enabled false s = Some (with_enabled false s)) as Hs1
    by (vm_compute; reflexivity).
  eexists. split; [exact Hs1|].
  exact (disabled_scheduler_arms_nothing s _ Hs1).
Defined.

Lemma set_update_timeout_locks_out_run :
  let s := scheduler 2 10 10 [] idle in
  m_update_timeout s < INT_MAX
  ∧ INT_MAX ≤ INT_MAX
  ∧ ∃ s',
      set_update_timeout INT_MAX s = Some s'
      ∧ m_update_timeout s' = INT_MAX
      ∧ (∀ camera, update_camera camera s' = None)
      ∧ (∀ new_quads, receiver_quads new_quads s' = None)
      ∧ (∀ b, set_enabled b s' = None)
      ∧ (∀ t', set_update_timeout t' s' = None).
Proof.
  cbn zeta.
  set (s := scheduler 2 10 10 [] idle).
  assert (m_update_timeout s < INT_MAX) as Hlt by reflexivity.
  assert (INT_MAX ≤ INT_MAX) as Hge by lia.
  split; [exact Hlt|]. split; [exact Hge|].
  exact (set_update_timeout_locks_out s INT_MAX Hlt Hge).
Defined.

(** Quad 1 is cached, quad 2 is delivered: the request that asked for
    quad 2 no longer does. *)
Lemma receiver_quads_delivers_run :
  let s := scheduler 2 10 10 [quad id1 None None] idle in
  let new_quads := [quad id2 None None] in
  ∃ s',
    receiver_quads new_quads s = Some s'
    ∧ (∀ id, id ∈ Cache.ids (m_ram_cache s') ↔
             id ∈ map TileQuad.id new_quads ∨ id ∈ Cache.ids (m_ram_cache s))
    ∧ m_gpu_cached s' = m_gpu_cached s
    ∧ ∀ fuel ids,
        send_quad_requests fuel s = Some (quads_requested ids) →
        send_quad_requests fuel s'
        = Some (quads_requested
                  (filter (λ id, id ∉ map TileQuad.id new_quads) ids)).
Proof.
  cbn zeta.
  set (s := scheduler 2 10 10 [quad id1 None None] idle).
  destruct (receiver_quads [quad id2 None None] s) as [s'|] eqn:Hs'.
  - exists s'. split; [reflexivity|].
    exact (receiver_quads_delivers [quad id2 None None] s s' Hs').
  - exfalso. vm_compute in Hs'. discriminate Hs'.
Defined.

End ArmingRuns.

Section SequenceRuns.
Import Sample.

Lemma purge_timeout_stays_valid_run :
  let s := scheduler 2 10 10 [] idle in
  let evs := [ SetPurgeTimeout 500; ReceiverQuads [quad id0 None None];
               UpdateTimerTimeout 3; PurgeTimerTimeout ] in
  m_purge_timeout s < INT_MAX
  ∧ ∃ s' sigs, run evs s = Some (s', sigs) ∧ m_purge_timeout s' < INT_MAX.
Proof.
  cbn zeta.
  set (s := scheduler 2 10 10 [] idle).
  set (evs := [ SetPurgeTimeout 500; ReceiverQuads [quad id0 None None];
                UpdateTimerTimeout 3; PurgeTimerTimeout ]).
  assert (m_purge_timeout s < INT_MAX) as Hlt by reflexivity.
  split; [exact Hlt|].
  destruct (run evs s) as [[s' sigs]|] eqn:Hrun.
  - exists s', sigs. split; [reflexivity|].
    exact (purge_timeout_stays_valid evs s s' sigs Hlt Hrun).
  - exfalso. vm_compute in Hrun. discriminate Hrun.
Defined.

Lemma capacities_follow_limits_run :
  let s := scheduler 2 10 10 [] idle in
  let evs := [ SetRamQuadLimit 3; SetGpuQuadLimit 1;
               ReceiverQuads [quad id0 None None; quad id1 None None];
               UpdateTimerTimeout 3 ] in
  Cache.m_capacity (m_ram_cache s) = m_ram_quad_limit s
  ∧ Cache.m_capacity (m_gpu_cached s) = m_gpu_quad_limit s
  ∧ ∃ s' sigs,
      run evs s = Some (s', sigs)
      ∧ Cache.m_capacity (m_ram_cache s') = m_ram_quad_limit s'
      ∧ Cache.m_capacity (m_gpu_cached s') = m_gpu_quad_limit s'.
Proof.
  cbn zeta.
  set (s := scheduler 2 10 10 [] idle).
  set (evs := [ SetRamQuadLimit 3; SetGpuQuadLimit 1;
                ReceiverQuads [quad id0 None None; quad id1 None None];
                UpdateTimerTimeout 3 ]).
  assert (Cache.m_capacity (m_ram_cache s) = m_ram_quad_limit s) as Hram
    by reflexivity.
  assert (Cache.m_capacity (m_gpu_cached s) = m_gpu_quad_limit s) as Hgpu
    by reflexivity.
  split; [exact Hram|]. split; [exact Hgpu|].
  destruct (run evs s) as [[s' sigs]|] eqn:Hrun.
  - exists s', sigs. split; [reflexivity|].
    exact (capacities_follow_limits evs s s' sigs Hram Hgpu Hrun).
  - exfalso. vm_compute in Hrun. discriminate Hrun.
Defined.

(** Two quads arrive, a pass promotes them under GPU limit 1, the camera
    moves out so that nothing is refined any more, and a second pass
    follows. *)
Lemma replayed_deltas_match_shadow_cache_run :
  let s := scheduler 2 10 1 [] idle in
  let evs := [ ReceiverQuads [quad id0 None None; quad id1 None None];
               UpdateTimerTimeout 3; @UpdateCamera externals 0; UpdateTimerTimeout 3 ] in
  NoDup (Cache.ids (m_ram_cache s))
  ∧ NoDup (Cache.ids (m_gpu_cached s))
  ∧ ∃ s' sigs,
      run evs s = Some (s', sigs)
      ∧ id_set (m_gpu_cached s') = replay sigs (id_set (m_gpu_cached s))
      ∧ NoDup (Cache.ids (m_ram_cache s'))
      ∧ NoDup (Cache.ids (m_gpu_cached s')).
Proof.
  cbn zeta.
  set (s := scheduler 2 10 1 [] idle).
  set (evs := [ ReceiverQuads [quad id0 None None; quad id1 None None];
                UpdateTimerTimeout 3; @UpdateCamera externals 0; UpdateTimerTimeout 3 ]).
  assert (NoDup (Cache.ids (m_ram_cache s))) as HndR by compute_done.
  assert (NoDup (Cache.ids (m_gpu_cached s))) as HndG by compute_done.
  split; [exact HndR|]. split; [exact HndG|].
  destruct (run evs s) as [[s' sigs]|] eqn:Hrun.
  - exists s', sigs. split; [reflexivity|].
    exact (replayed_deltas_match_shadow_cache evs s s' sigs HndR HndG Hrun).
  - exfalso. vm_compute in Hrun. discriminate Hrun.
Defined.

(** RAM limit 1 and three cached quads of which the camera wants one. *)
Lemma purge_ram_cache_only_drops_run :
  let s := scheduler 1 1 10
             [quad id0 None None; quad id1 None None; quad id2 None None] idle in
  ∃ s',
    purge_ram_cache s = Some s'
    ∧ map Cache.data (Cache.m_data (m_ram_cache s'))
        `sublist_of` map Cache.data (Cache.m_data (m_ram_cache s))
    ∧ Cache.m_capacity (m_ram_cache s') = Cache.m_capacity (m_ram_cache s)
    ∧ m_gpu_cached s' = m_gpu_cached s
    ∧ should_refine s' = should_refine s
    ∧ ∀ fuel ids ids',
        send_quad_requests fuel s = Some (quads_requested ids) →
        send_quad_requests fuel s' = Some (quads_requested ids') →
        ids `sublist_of` ids'.
Proof.
  cbn zeta.
  set (s := scheduler 1 1 10
              [quad id0 None None; quad id1 None None; quad id2 None None] idle).
  destruct (purge_ram_cache s) as [s'|] eqn:Hs'.
  - exists s'. split; [reflexivity|].
    exact (purge_ram_cache_only_drops s s' Hs').
  - exfalso. vm_compute in Hs'. discriminate Hs'.
Defined.

(** A RAM limit of 1000 quads: the purge pass starts at 1100. *)
Lemma purge_threshold_small_run :
  0 ≤ 1000 < 65536 ∧ purge_threshold 1000 = Some 1100.
Proof.
  assert (0 ≤ 1000 < 65536) as HL by lia.
  split; [exact HL|]. exact (purge_threshold_small 1000 HL).
Defined.

End SequenceRuns.

Section TextureRuns.
Import Texture TextureGL.

Lemma uploads_after_setParams_run :
  let t := {| m_target := _2d; m_format := CompressedRGBA8; m_id := 1;
              m_min_filter := Nearest; m_mag_filter := Nearest |} in
  ∃ t',
    setParams t Linear Linear = Some t'
    ∧ (∀ tex, is_Some (upload_colour Desktop t' tex) ↔
              m_format t = RGBA8 ∨ m_format t = CompressedRGBA8)
    ∧ (∀ tex, is_Some (upload_rg8 t' tex) ↔ m_format t = RG8)
    ∧ (∀ tex, is_Some (upload_r16 t' tex) ↔ m_format t = R16UI).
Proof.
  cbn zeta.
  set (t := {| m_target := _2d; m_format := CompressedRGBA8; m_id := 1;
               m_min_filter := Nearest; m_mag_filter := Nearest |}).
  destruct (setParams t Linear Linear) as [t'|] eqn:Ht'.
  - exists t'. split; [reflexivity|].
    exact (uploads_after_setParams Desktop t Linear Linear t' Ht').
  - exfalso. vm_compute in Ht'. discriminate Ht'.
Defined.

Lemma upload_colour_mipmaps_run :
  let t := {| m_target := _2d; m_format := RGBA8; m_id := 1;
              m_min_filter := MipMapLinear; m_mag_filter := Linear |} in
  let tex := {| ct_width := 1; ct_height := 1; ct_n_bytes := 4;
                ct_data := [Byte.xff; Byte.x00; Byte.x00; Byte.xff] |} in
  ∃ calls,
    upload_colour Desktop t tex = Some calls
    ∧ (glGenerateMipmap (m_target t) ∈ calls ↔
       m_format t = RGBA8 ∧ m_min_filter t = MipMapLinear)
    ∧ (m_format t = CompressedRGBA8 →
       calls = [ glBindTexture (m_target t) (m_id t);
                 glPixelStorei_UNPACK_ALIGNMENT 1;
                 glCompressedTexImage2D (m_target t) 0
                   (compressed_texture_format Desktop)
                   (to_int (ct_width tex)) (to_int (ct_height tex)) 0
                   (to_int (ct_n_bytes tex)) (ct_data tex) ])
    ∧ (∀ target, glGenerateMipmap target ∈ calls →
                 last calls = Some (glGenerateMipmap target) ∧ target = m_target t).
Proof.
  cbn zeta.
  set (t := {| m_target := _2d; m_format := RGBA8; m_id := 1;
               m_min_filter := MipMapLinear; m_mag_filter := Linear |}).
  set (tex := {| ct_width := 1; ct_height := 1; ct_n_bytes := 4;
                 ct_data := [Byte.xff; Byte.x00; Byte.x00; Byte.xff] |}).
  destruct (upload_colour Desktop t tex) as [calls|] eqn:Hc.
  - exists calls. split; [reflexivity|].
    exact (upload_colour_mipmaps Desktop t tex calls Hc).
  - exfalso. vm_compute in Hc. discriminate Hc.
Defined.

(** A 256 x 128 array of four mipmapped layers: nine levels. *)
Lemma allocate_array_levels_run :
  let t := {| texture := {| m_target := _2dArray; m_format := RGBA8; m_id := 1;
                            m_min_filter := MipMapLinear; m_mag_filter := Linear |};
              m_width := 0; m_height := 0; m_n_layers := 0 |} in
  0 ≤ 256 ∧ 0 ≤ 128
  ∧ allocate_array Desktop t 256 128 4
    = Some ({| texture := texture t; m_width := 256; m_height := 128;
               m_n_layers := 4 |},
            [ glBindTexture _2dArray 1;
              glTexStorage3D _2dArray 9 (GLenum_of_Format RGBA8) 256 128 4 ])
  ∧ ∃ levels internalformat,
      [ glBindTexture _2dArray 1; glTexStorage3D _2dArray 9 (GLenum_of_Format RGBA8) 256 128 4 ]
      = [ glBindTexture (m_target (texture t)) (m_id (texture t));
          glTexStorage3D (m_target (texture t)) levels internalformat
            (to_int 256) (to_int 128) (to_int 4) ]
      ∧ (m_min_filter (texture t) = MipMapLinear →
         0 < Z.max 256 128 ∧ 2 ^ (levels - 1) ≤ Z.max 256 128 < 2 ^ levels).
Proof.
  cbn zeta.
  set (t := {| texture := {| m_target := _2dArray; m_format := RGBA8; m_id := 1;
                             m_min_filter := MipMapLinear; m_mag_filter := Linear |};
               m_width := 0; m_height := 0; m_n_layers := 0 |}).
  assert (0 ≤ 256) as Hw by lia.
  assert (0 ≤ 128) as Hh by lia.
  assert (allocate_array Desktop t 256 128 4
          = Some ({| texture := texture t; m_width := 256; m_height := 128;
                     m_n_layers := 4 |},
                  [ glBindTexture _2dArray 1;
                    glTexStorage3D _2dArray 9 (GLenum_of_Format RGBA8) 256 128 4 ])) as Hal
    by (vm_compute; reflexivity).
  split; [exact Hw|]. split; [exact Hh|]. split; [exact Hal|].
  destruct (allocate_array_levels Desktop t 256 128 4 _ _ Hw Hh Hal)
    as (_ & _ & _ & _ & _ & _ & levels & internalformat & Hcalls & _ & Hmip & _).
  exists levels, internalformat. split; [exact Hcalls|exact Hmip].
Defined.

Lemma layer_uploads_after_allocate_array_run :
  let t := {| texture := {| m_target := _2dArray; m_format := R16UI; m_id := 2;
                            m_min_filter := Nearest; m_mag_filter := Nearest |};
              m_width := 0; m_height := 0; m_n_layers := 0 |} in
  ∃ t' calls,
    allocate_array Desktop t 65 65 2 = Some (t', calls)
    ∧ (∀ tex i,
         is_Some (upload_r16_layer t' tex i) ↔
         r_width tex = 65 ∧ r_height tex = 65 ∧ i < 2
         ∧ m_format (texture t) = R16UI
         ∧ m_mag_filter (texture t) = Nearest
         ∧ m_min_filter (texture t) = Nearest)
    ∧ (∀ tex i, upload_colour_layer Desktop t' tex i = None).
Proof.
  cbn zeta.
  set (t := {| texture := {| m_target := _2dArray; m_format := R16UI; m_id := 2;
                             m_min_filter := Nearest; m_mag_filter := Nearest |};
               m_width := 0; m_height := 0; m_n_layers := 0 |}).
  destruct (allocate_array Desktop t 65 65 2) as [[t' calls]|] eqn:Hal.
  - exists t', calls. split; [reflexivity|].
    destruct (layer_uploads_after_allocate_array Desktop t 65 65 2 t' calls Hal)
      as (Hcol & Hr16 & _).
    split; [exact Hr16|].
    intros tex i. apply eq_None_not_Some. intros Hsome.
    apply Hcol in Hsome as (_ & _ & _ & [Hf|[Hf _]]); discriminate Hf.
  - exfalso. vm_compute in Hal. discriminate Hal.
Defined.

End TextureRuns.
